(** * Guest bindings and playground of tauri-plugin-web-bluetooth-api

    A shallow embedding of the guest-side TypeScript of the plugin:
    - [guest-js/index.ts]: the invocation helper [call] and the command
      wrappers built on it;
    - the Svelte playground component: its state, the value codec
      ([decodeValue], [encodeWritePayload]), the discovery request
      ([requestNewDevice]), the device cache mirror ([refreshDevices]) and
      the subscription bookkeeping ([startNotify], [stopNotify],
      [handleDisconnectEvent], [isSubscribed]).

    JavaScript strings are sequences of UTF-16 code units; they are modelled
    as [list N].  A [Uint8Array] is a [list byte].  Asynchronous functions
    are resumptions over the component state: a function either finishes or
    is suspended on one [invoke] of the host, and is resumed with the answer
    and with the state as it is at that moment. *)

From Stdlib Require Import NArith ZArith Lia Sorted.
From Stdlib.Strings Require Import String Ascii Byte.
From stdpp Require Import base option list gmap.

Local Open Scope N_scope.
Set Warnings "-register-all".

(** ** JavaScript strings *)

Abbreviation jsstring := (list N).

(** A source literal (ASCII text) as a JavaScript string. *)
Definition js (s : string) : jsstring :=
  map N_of_ascii (list_ascii_of_string s).
Arguments js s%_string.

(** The code unit of the double quote, which source literals written with
    single quotes may contain. *)
Definition dquote : jsstring := [34].

(** ECMAScript WhiteSpace and LineTerminator code units, the set that
    [String.prototype.trim] strips and [parseInt] skips. *)
Definition is_line_terminator (c : N) : bool :=
  (c =? 10) || (c =? 13) || (c =? 0x2028) || (c =? 0x2029).

Definition is_js_space (c : N) : bool :=
  (c =? 9) || (c =? 11) || (c =? 12) || (c =? 32) || (c =? 160)
  || (c =? 0x1680) || ((0x2000 <=? c) && (c <=? 0x200A))
  || (c =? 0x202F) || (c =? 0x205F) || (c =? 0x3000) || (c =? 0xFEFF)
  || is_line_terminator c.

Fixpoint trimStart (s : jsstring) : jsstring :=
  match s with
  | c :: rest => if is_js_space c then trimStart rest else s
  | [] => []
  end.

Definition trimEnd (s : jsstring) : jsstring := rev (trimStart (rev s)).

(** [s.trim()] *)
Definition trim (s : jsstring) : jsstring := trimEnd (trimStart s).

(** [s.split(',')]: always at least one piece. *)
Fixpoint split_comma (s : jsstring) : list jsstring :=
  match s with
  | [] => [[]]
  | c :: rest =>
      if c =? 44 then [] :: split_comma rest
      else match split_comma rest with
           | piece :: pieces => (c :: piece) :: pieces
           | [] => [[c]]
           end
  end.

(** Truthiness of a string: the empty string is falsy. *)
Definition truthy (s : jsstring) : bool :=
  match s with [] => false | _ => true end.

(** [a === b] on strings. *)
Definition str_eqb (a b : jsstring) : bool := bool_decide (a = b).

(** [s.startsWith(p)] *)
Fixpoint startsWith (s p : jsstring) : bool :=
  match p, s with
  | [], _ => true
  | x :: p', y :: s' => (x =? y) && startsWith s' p'
  | _ :: _, [] => false
  end.

(** [parts.join(sep)] *)
Fixpoint join (sep : jsstring) (parts : list jsstring) : jsstring :=
  match parts with
  | [] => []
  | [p] => p
  | p :: rest => p ++ sep ++ join sep rest
  end.

(** ** Bytes and numbers *)

(** Storing a number into a [Uint8Array] keeps its low eight bits. *)
Definition byte_of_N (n : N) : byte :=
  match Byte.of_N (n mod 256) with
  | Some b => b
  | None => x00
  end.

(** The numbers the modelled code computes with are integers or NaN. *)
Inductive number : Type :=
| NaN
| Int (z : Z).

(** ToUint16, as applied by [String.fromCharCode] to each argument. *)
Definition toUint16 (x : number) : N :=
  match x with
  | NaN => 0
  | Int z => Z.to_N (z mod 65536)
  end.

(** [String.fromCharCode(...xs)] *)
Definition fromCharCode (xs : list number) : jsstring := map toUint16 xs.

(** The elements of a [Uint8Array] read back as numbers (spreading it). *)
Definition spread_bytes (bs : list byte) : list number :=
  map (fun b => Int (Z.of_N (Byte.to_N b))) bs.

(** ** Hexadecimal digits, [parseInt] with radix 16, [toString(16)] *)

Definition hex_value (c : N) : option N :=
  if (48 <=? c) && (c <=? 57) then Some (c - 48)
  else if (97 <=? c) && (c <=? 102) then Some (c - 87)
  else if (65 <=? c) && (c <=? 70) then Some (c - 55)
  else None.

(** The character class [0-9a-fA-F]. *)
Definition is_hex_digit (c : N) : bool :=
  match hex_value c with Some _ => true | None => false end.

(** The value of the longest prefix of hexadecimal digits, and whether that
    prefix is non-empty. *)
Fixpoint hex_prefix (acc : N) (seen : bool) (s : jsstring) : option N :=
  match s with
  | c :: rest =>
      match hex_value c with
      | Some d => hex_prefix (16 * acc + d) true rest
      | None => if seen then Some acc else None
      end
  | [] => if seen then Some acc else None
  end.

Definition strip_0x (s : jsstring) : jsstring :=
  match s with
  | 48 :: x :: rest => if (x =? 120) || (x =? 88) then rest else s
  | _ => s
  end.

(** [parseInt(s, 16)]: leading white space, an optional sign, an optional
    [0x] prefix, then the longest run of hexadecimal digits; NaN when that
    run is empty.  (Exact for the short strings the code passes; a double
    rounds beyond 2^53.) *)
Definition parseInt16 (s : jsstring) : number :=
  let s1 := trimStart s in
  let '(neg, s2) :=
    match s1 with
    | 45 :: r => (true, r)
    | 43 :: r => (false, r)
    | _ => (false, s1)
    end in
  match hex_prefix 0 false (strip_0x s2) with
  | Some v => Int (if neg then - Z.of_N v else Z.of_N v)
  | None => NaN
  end.

Definition hex_digit (n : N) : N := if n <? 10 then 48 + n else 87 + n.

(** [byte.toString(16).padStart(2, '0')] for a byte. *)
Definition byte_hex (b : byte) : jsstring :=
  let n := Byte.to_N b in [hex_digit (n / 16); hex_digit (n mod 16)].

(** [s.replace(/[^0-9a-fA-F]/g, '')] *)
Definition strip_non_hex (s : jsstring) : jsstring :=
  List.filter is_hex_digit s.

(** [s.match(/.{1,2}/g)]: greedy chunks of one or two code units, where the
    dot does not match a line terminator; [None] is the [null] of no match. *)
Fixpoint dot_chunks (s : jsstring) : list jsstring :=
  match s with
  | [] => []
  | c :: rest =>
      if is_line_terminator c then dot_chunks rest
      else match rest with
           | d :: rest' =>
               if is_line_terminator d then [c] :: dot_chunks rest'
               else [c; d] :: dot_chunks rest'
           | [] => [[c]]
           end
  end.

Definition match_dot_1_2 (s : jsstring) : option (list jsstring) :=
  match dot_chunks s with
  | [] => None
  | chunks => Some chunks
  end.

(** ** Values, errors and outcomes *)

(** JavaScript values that cross the invocation boundary. *)
Inductive Json : Type :=
| JUndefined
| JNull
| JBool (b : bool)
| JNum (z : Z)
| JStr (s : jsstring)
| JArr (items : list Json)
| JObj (fields : list (jsstring * Json)).

(** What a [throw] or a rejected promise carries: an [Error] instance (with
    its [name] and [message]; a [DOMException] is one too), or any other
    value, as the host rejects with. *)
Inductive JsError : Type :=
| ErrorObj (name message : jsstring)
| Rejected (value : Json).

(** [new Error(message)] *)
Definition Error (message : jsstring) : JsError := ErrorObj (js "Error") message.

Inductive Outcome (A : Type) : Type :=
| Ok (a : A)
| Throw (e : JsError).
Arguments Ok {A} a.
Arguments Throw {A} e.

(** ** TextEncoder and TextDecoder (UTF-8) *)

Definition is_lead_surrogate (c : N) : bool := (0xD800 <=? c) && (c <=? 0xDBFF).
Definition is_trail_surrogate (c : N) : bool := (0xDC00 <=? c) && (c <=? 0xDFFF).

(** The scalar values of a string; a lone surrogate becomes U+FFFD. *)
Fixpoint scalar_values (s : jsstring) : list N :=
  match s with
  | [] => []
  | c :: rest =>
      if is_lead_surrogate c then
        match rest with
        | d :: rest' =>
            if is_trail_surrogate d
            then (0x10000 + N.shiftl (c - 0xD800) 10 + (d - 0xDC00)) :: scalar_values rest'
            else 0xFFFD :: scalar_values rest
        | [] => [0xFFFD]
        end
      else if is_trail_surrogate c then 0xFFFD :: scalar_values rest
      else c :: scalar_values rest
  end.

Definition continuation_byte (cp shift : N) : byte :=
  byte_of_N (N.lor 0x80 (N.land (N.shiftr cp shift) 0x3F)).

Definition utf8_of_scalar (cp : N) : list byte :=
  if cp <? 0x80 then [byte_of_N cp]
  else if cp <? 0x800 then
    [byte_of_N (N.lor 0xC0 (N.shiftr cp 6)); continuation_byte cp 0]
  else if cp <? 0x10000 then
    [byte_of_N (N.lor 0xE0 (N.shiftr cp 12)); continuation_byte cp 6;
     continuation_byte cp 0]
  else
    [byte_of_N (N.lor 0xF0 (N.shiftr cp 18)); continuation_byte cp 12;
     continuation_byte cp 6; continuation_byte cp 0].

(** [new TextEncoder().encode(s)] *)
Definition TextEncoder_encode (s : jsstring) : list byte :=
  concat (map utf8_of_scalar (scalar_values s)).

(** The UTF-8 decoder at the start of a sequence. *)
Inductive Utf8Start : Type :=
| Emit (cp : N)
| Lead (cp needed lower upper : N)
| Bad.

Definition utf8_start (b : N) : Utf8Start :=
  if b <=? 0x7F then Emit b
  else if (0xC2 <=? b) && (b <=? 0xDF) then Lead (N.land b 0x1F) 1 0x80 0xBF
  else if (0xE0 <=? b) && (b <=? 0xEF) then
    Lead (N.land b 0xF) 2 (if b =? 0xE0 then 0xA0 else 0x80)
         (if b =? 0xED then 0x9F else 0xBF)
  else if (0xF0 <=? b) && (b <=? 0xF4) then
    Lead (N.land b 0x7) 3 (if b =? 0xF0 then 0x90 else 0x80)
         (if b =? 0xF4 then 0x8F else 0xBF)
  else Bad.

(** The decoder loop: [pending] is the sequence under way (code point so
    far, bytes still needed, bounds of the next byte).  A byte out of
    bounds ends the sequence with U+FFFD and is decoded again as a start. *)
Fixpoint utf8_decode (bs : list N) (pending : option (N * N * N * N)) : list N :=
  match bs with
  | [] => match pending with Some _ => [0xFFFD] | None => [] end
  | b :: rest =>
      let start :=
        match utf8_start b with
        | Emit cp => cp :: utf8_decode rest None
        | Lead cp needed lower upper =>
            utf8_decode rest (Some (cp, needed, lower, upper))
        | Bad => 0xFFFD :: utf8_decode rest None
        end in
      match pending with
      | None => start
      | Some (cp, needed, lower, upper) =>
          if (lower <=? b) && (b <=? upper) then
            let cp' := N.lor (N.shiftl cp 6) (N.land b 0x3F) in
            if needed =? 1 then cp' :: utf8_decode rest None
            else utf8_decode rest (Some (cp', needed - 1, 0x80, 0xBF))
          else 0xFFFD :: start
      end
  end.

Definition utf16_of_scalar (cp : N) : jsstring :=
  if cp <? 0x10000 then [cp]
  else [0xD800 + N.shiftr (cp - 0x10000) 10; 0xDC00 + N.land (cp - 0x10000) 0x3FF].

Definition strip_bom (cps : list N) : list N :=
  match cps with
  | 0xFEFF :: rest => rest
  | _ => cps
  end.

(** [new TextDecoder().decode(bytes)]: UTF-8 with replacement; the decoder
    is not fatal, so it never throws. *)
Definition TextDecoder_decode (bs : list byte) : Outcome jsstring :=
  Ok (concat (map utf16_of_scalar
                (strip_bom (utf8_decode (map Byte.to_N bs) None)))).

(** ** [btoa] and [atob] *)

Definition InvalidCharacterError (message : jsstring) : JsError :=
  ErrorObj (js "InvalidCharacterError") message.

(** The texts of these two messages differ between engines. *)
Definition btoa_message : jsstring :=
  js "Failed to execute 'btoa' on 'Window': The string to be encoded contains characters outside of the Latin1 range.".
Definition atob_message : jsstring :=
  js "Failed to execute 'atob' on 'Window': The string to be decoded is not correctly encoded.".

(** The base64 alphabet: a 6-bit value to its code unit, and back. *)
Definition b64_char (v : N) : N :=
  if v <? 26 then 65 + v
  else if v <? 52 then 71 + v
  else if v <? 62 then v - 4
  else if v =? 62 then 43
  else 47.

Definition b64_value (c : N) : option N :=
  if (65 <=? c) && (c <=? 90) then Some (c - 65)
  else if (97 <=? c) && (c <=? 122) then Some (c - 71)
  else if (48 <=? c) && (c <=? 57) then Some (c + 4)
  else if c =? 43 then Some 62
  else if c =? 47 then Some 63
  else None.

(** Base64 of a sequence of byte values, with padding. *)
Fixpoint b64_encode (l : list N) : jsstring :=
  match l with
  | [] => []
  | [a] => [b64_char (a / 4); b64_char ((a mod 4) * 16); 61; 61]
  | [a; b] =>
      [b64_char (a / 4); b64_char ((a mod 4) * 16 + b / 16);
       b64_char ((b mod 16) * 4); 61]
  | a :: b :: c :: rest =>
      b64_char (a / 4) :: b64_char ((a mod 4) * 16 + b / 16)
      :: b64_char ((b mod 16) * 4 + c / 64) :: b64_char (c mod 64)
      :: b64_encode rest
  end.

(** [btoa(s)]: throws when a code unit is above 0xFF. *)
Definition btoa (s : jsstring) : Outcome jsstring :=
  if forallb (fun c => c <=? 255) s then Ok (b64_encode s)
  else Throw (InvalidCharacterError btoa_message).

Definition is_ascii_whitespace (c : N) : bool :=
  (c =? 9) || (c =? 10) || (c =? 12) || (c =? 13) || (c =? 32).

(** Removing the one or two [=] that end the data. *)
Fixpoint strip_padding (s : jsstring) : jsstring :=
  match s with
  | [] => []
  | c :: rest =>
      if (c =? 61) && (bool_decide (rest = []) || bool_decide (rest = [61]))
      then []
      else c :: strip_padding rest
  end.

(** Groups of four 6-bit values give three bytes; a rest of three gives
    two bytes and a rest of two gives one, the spare bits being dropped. *)
Fixpoint b64_decode (vs : list N) : list N :=
  match vs with
  | a :: b :: c :: d :: rest =>
      (a * 4 + b / 16) :: ((b mod 16) * 16 + c / 4) :: ((c mod 4) * 64 + d)
      :: b64_decode rest
  | [a; b; c] => [a * 4 + b / 16; (b mod 16) * 16 + c / 4]
  | [a; b] => [a * 4 + b / 16]
  | _ => []
  end.

(** The forgiving-base64 decode of the WHATWG Infra standard. *)
Definition forgiving_base64_decode (data : jsstring) : option jsstring :=
  let data1 := List.filter (fun c => negb (is_ascii_whitespace c)) data in
  let data2 :=
    if N.of_nat (length data1) mod 4 =? 0 then strip_padding data1 else data1 in
  if N.of_nat (length data2) mod 4 =? 1 then None
  else b64_decode <$> mapM b64_value data2.

(** [atob(s)] *)
Definition atob (s : jsstring) : Outcome jsstring :=
  match forgiving_base64_decode s with
  | Some bin => Ok bin
  | None => Throw (InvalidCharacterError atob_message)
  end.

(** [Uint8Array.from(s, (char) => char.charCodeAt(0))] *)
Definition Uint8Array_from_chars (s : jsstring) : list byte := map byte_of_N s.

(** ** [JSON.stringify] without indentation *)

Fixpoint digits_of_uint (u : Decimal.uint) : jsstring :=
  match u with
  | Decimal.Nil => []
  | Decimal.D0 r => 48 :: digits_of_uint r
  | Decimal.D1 r => 49 :: digits_of_uint r
  | Decimal.D2 r => 50 :: digits_of_uint r
  | Decimal.D3 r => 51 :: digits_of_uint r
  | Decimal.D4 r => 52 :: digits_of_uint r
  | Decimal.D5 r => 53 :: digits_of_uint r
  | Decimal.D6 r => 54 :: digits_of_uint r
  | Decimal.D7 r => 55 :: digits_of_uint r
  | Decimal.D8 r => 56 :: digits_of_uint r
  | Decimal.D9 r => 57 :: digits_of_uint r
  end.

(** [String(z)] for an integer. *)
Definition string_of_Z (z : Z) : jsstring :=
  match z with
  | Z0 => [48]
  | Zpos p => digits_of_uint (Pos.to_uint p)
  | Zneg p => 45 :: digits_of_uint (Pos.to_uint p)
  end.

Definition unicode_escape (c : N) : jsstring :=
  js "\u" ++ [hex_digit (c / 4096); hex_digit ((c / 256) mod 16);
              hex_digit ((c / 16) mod 16); hex_digit (c mod 16)].

(** The body of a quoted JSON string: the usual escapes, and a lone
    surrogate written as an escape. *)
Fixpoint quote_chars (s : jsstring) : jsstring :=
  match s with
  | [] => []
  | c :: rest =>
      if c =? 8 then js "\b" ++ quote_chars rest
      else if c =? 9 then js "\t" ++ quote_chars rest
      else if c =? 10 then js "\n" ++ quote_chars rest
      else if c =? 12 then js "\f" ++ quote_chars rest
      else if c =? 13 then js "\r" ++ quote_chars rest
      else if c =? 34 then 92 :: 34 :: quote_chars rest
      else if c =? 92 then 92 :: 92 :: quote_chars rest
      else if c <? 32 then unicode_escape c ++ quote_chars rest
      else if is_lead_surrogate c then
        match rest with
        | d :: rest' =>
            if is_trail_surrogate d then c :: d :: quote_chars rest'
            else unicode_escape c ++ quote_chars rest
        | [] => unicode_escape c
        end
      else if is_trail_surrogate c then unicode_escape c ++ quote_chars rest
      else c :: quote_chars rest
  end.

Definition quote_json (s : jsstring) : jsstring :=
  dquote ++ quote_chars s ++ dquote.

(** [JSON.stringify(v)]; [None] is the [undefined] it gives for
    [undefined].  In an array [undefined] is written [null], in an object
    the property is left out. *)
Fixpoint JSON_stringify (v : Json) : option jsstring :=
  match v with
  | JUndefined => None
  | JNull => Some (js "null")
  | JBool true => Some (js "true")
  | JBool false => Some (js "false")
  | JNum z => Some (string_of_Z z)
  | JStr s => Some (quote_json s)
  | JArr items =>
      Some (js "[" ++ join (js ",")
              (map (fun item => default (js "null") (JSON_stringify item)) items)
            ++ js "]")
  | JObj fields =>
      Some (js "{" ++ join (js ",")
              (omap (fun kv : jsstring * Json =>
                       (fun text => quote_json kv.1 ++ js ":" ++ text)
                         <$> JSON_stringify kv.2) fields)
            ++ js "}")
  end.

(** * guest-js/index.ts: types *)

Module Types.

Record DeviceFilter : Type := {
  filter_services : option (list jsstring);
  filter_name : option jsstring;
  filter_namePrefix : option jsstring
}.

Record RequestDeviceOptions : Type := {
  acceptAllDevices : option bool;
  filters : option (list DeviceFilter);
  optionalServices : option (list jsstring);
  scanTimeoutMs : option Z
}.

Record BluetoothDevice : Type := {
  id : jsstring;
  name : option jsstring;
  uuids : list jsstring;
  watchingAdvertisements : bool;
  connected : bool
}.

Record BluetoothDescriptor : Type := { descriptor_uuid : jsstring }.

Record CharacteristicProperties : Type := {
  broadcast : bool;
  read : bool;
  writeWithoutResponse : bool;
  write : bool;
  notify : bool;
  indicate : bool;
  authenticatedSignedWrites : bool;
  reliableWrite : bool;
  writableAuxiliaries : bool
}.

Record BluetoothCharacteristic : Type := {
  characteristic_uuid : jsstring;
  properties : CharacteristicProperties;
  descriptors : list BluetoothDescriptor
}.

Record BluetoothService : Type := {
  service_uuid : jsstring;
  isPrimary : bool;
  characteristics : list BluetoothCharacteristic
}.

Record GattServerInfo : Type := {
  gatt_deviceId : jsstring;
  gatt_connected : bool;
  gatt_services : list BluetoothService
}.

Record BluetoothValue : Type := { value : jsstring }.

Record NotificationEventPayload : Type := {
  event_deviceId : jsstring;
  event_serviceUuid : jsstring;
  event_characteristicUuid : jsstring;
  event_value : jsstring
}.

Record DeviceEventPayload : Type := { deviceId : jsstring }.

(** The response of [ping]: [{ value?: string }]. *)
Record PingResponse : Type := { ping_value : option jsstring }.

End Types.
Import Types.

(** A value that is a string or [null]. *)
Inductive Nullable (A : Type) : Type :=
| Null
| Value (a : A).
Arguments Null {A}.
Arguments Value {A} a.

(** [x ?? null] on an optional property: [None] is [undefined]. *)
Definition or_null {A} (x : option A) : Nullable A :=
  match x with
  | Some a => Value a
  | None => Null
  end.

(** ** Typed values as JavaScript objects

    An optional property that is absent or [undefined] is written
    [JUndefined]; the property names are those of the interfaces. *)

Definition json_opt {A} (f : A -> Json) (x : option A) : Json :=
  match x with
  | Some a => f a
  | None => JUndefined
  end.

Definition json_strings (l : list jsstring) : Json := JArr (map JStr l).

Definition json_of_filter (f : DeviceFilter) : Json :=
  JObj [(js "services", json_opt json_strings (filter_services f));
        (js "name", json_opt JStr (filter_name f));
        (js "namePrefix", json_opt JStr (filter_namePrefix f))].

Definition json_of_options (o : RequestDeviceOptions) : Json :=
  JObj [(js "acceptAllDevices", json_opt JBool (acceptAllDevices o));
        (js "filters", json_opt (fun l => JArr (map json_of_filter l)) (filters o));
        (js "optionalServices", json_opt json_strings (optionalServices o));
        (js "scanTimeoutMs", json_opt JNum (scanTimeoutMs o))].

Definition json_of_device (d : BluetoothDevice) : Json :=
  JObj [(js "id", JStr (id d));
        (js "name", json_opt JStr (name d));
        (js "uuids", json_strings (uuids d));
        (js "watchingAdvertisements", JBool (watchingAdvertisements d));
        (js "connected", JBool (connected d))].

Definition json_of_device_event (p : DeviceEventPayload) : Json :=
  JObj [(js "deviceId", JStr (deviceId p))].

(** * Asynchronous functions

    [invoke] hands a command name and a payload to the host and suspends
    the caller.  The answer is a value of the type the caller asked for, or
    a rejection.  The response types in use are listed once; [call<T>] is
    indexed by them. *)

Inductive ResponseType : Type :=
| TBoolean
| TDevice
| TDevices
| TGattServerInfo
| TServices
| TCharacteristics
| TValue
| TPing
| TUnknown.

Definition response (t : ResponseType) : Type :=
  match t with
  | TBoolean => bool
  | TDevice => BluetoothDevice
  | TDevices => list BluetoothDevice
  | TGattServerInfo => GattServerInfo
  | TServices => list BluetoothService
  | TCharacteristics => list BluetoothCharacteristic
  | TValue => BluetoothValue
  | TPing => PingResponse
  | TUnknown => Json
  end.

(** A run of an asynchronous function over a state [S]: finished, with an
    outcome and the state it leaves, or suspended on an invocation, with
    the state it leaves meanwhile and what it does once resumed, given the
    answer and the state found then. *)
Inductive Step (S A : Type) : Type :=
| Finished (o : Outcome A) (s : S)
| Awaiting (t : ResponseType) (command : jsstring) (payload : Json) (s : S)
           (resume : Outcome (response t) -> S -> Step S A).
Arguments Finished {S A} o s.
Arguments Awaiting {S A} t command payload s resume.

Definition Async (S A : Type) : Type := S -> Step S A.

Fixpoint step_bind {S A B} (p : Step S A) (f : A -> Async S B) : Step S B :=
  match p with
  | Finished (Ok a) s => f a s
  | Finished (Throw e) s => Finished (Throw e) s
  | Awaiting t command payload s resume =>
      Awaiting t command payload s (fun r s' => step_bind (resume r s') f)
  end.

Definition ret {S A} (a : A) : Async S A := fun s => Finished (Ok a) s.
Definition throw {S A} (e : JsError) : Async S A := fun s => Finished (Throw e) s.
Definition bind {S A B} (m : Async S A) (f : A -> Async S B) : Async S B :=
  fun s => step_bind (m s) f.
Definition get {S} : Async S S := fun s => Finished (Ok s) s.
Definition modify {S} (f : S -> S) : Async S unit := fun s => Finished (Ok tt) (f s).

Declare Scope async_scope.
Delimit Scope async_scope with async.
Notation "x <- m ;; k" := (bind m (fun x => k))
  (at level 100, m at next level, right associativity) : async_scope.

(** [invoke<T>(command, payload)] of [@tauri-apps/api/core]. *)
Definition invoke {S} (t : ResponseType) (command : jsstring) (payload : Json)
  : Async S (response t) :=
  fun s => Awaiting t command payload s (fun r s' => Finished r s').

(** ** Running against a host

    A host answers each invocation and keeps a state of its own.  The
    sequential run resumes a function on the state it left, that is, with
    nothing else running in between. *)
Record Host : Type := {
  host_state : Type;
  answer : forall t : ResponseType,
      jsstring -> Json -> host_state -> Outcome (response t) * host_state
}.

Fixpoint run_step {S A} (h : Host) (p : Step S A) (b : host_state h)
  : Outcome A * S * host_state h :=
  match p with
  | Finished o s => (o, s, b)
  | Awaiting t command payload s resume =>
      let '(r, b') := answer h t command payload b in
      run_step h (resume r s) b'
  end.

(** * guest-js/index.ts: commands *)

Module Guest.
Section Commands.
Context {S : Type}.
Local Open Scope async_scope.

Definition NAMESPACE : jsstring := js "plugin:web-bluetooth".

Definition EVENTS_characteristicValueChanged : jsstring :=
  js "web-bluetooth://characteristic-value-changed".
Definition EVENTS_gattServerDisconnected : jsstring :=
  js "web-bluetooth://gattserver-disconnected".

(** [payload ?? {}] *)
Definition payload_or_empty (payload : option Json) : Json :=
  match payload with
  | Some p => p
  | None => JObj []
  end.

Definition call (t : ResponseType) (command : jsstring) (payload : option Json)
  : Async S (response t) :=
  invoke t (NAMESPACE ++ js "|" ++ command) (payload_or_empty payload).

Definition ping (value : jsstring) : Async S (Nullable jsstring) :=
  response <- call TPing (js "ping")
                (Some (JObj [(js "payload", JObj [(js "value", JStr value)])])) ;;
  ret (or_null (ping_value response)).

Definition getAvailability : Async S bool :=
  call TBoolean (js "get_availability") None.

Definition getDevices : Async S (list BluetoothDevice) :=
  call TDevices (js "get_devices") None.

Definition requestDevice (options : RequestDeviceOptions) : Async S BluetoothDevice :=
  call TDevice (js "request_device")
    (Some (JObj [(js "options", json_of_options options)])).

Definition device_request (deviceId : jsstring) : Json :=
  JObj [(js "request", JObj [(js "deviceId", JStr deviceId)])].

Definition connectGATT (deviceId : jsstring) : Async S GattServerInfo :=
  call TGattServerInfo (js "connect_gatt") (Some (device_request deviceId)).

Definition disconnectGATT (deviceId : jsstring) : Async S unit :=
  _ <- call TUnknown (js "disconnect_gatt") (Some (device_request deviceId)) ;;
  ret tt.

Definition forgetDevice (deviceId : jsstring) : Async S unit :=
  _ <- call TUnknown (js "forget_device") (Some (device_request deviceId)) ;;
  ret tt.

Definition getPrimaryServices (deviceId : jsstring) (serviceUuid : option jsstring)
  : Async S (list BluetoothService) :=
  call TServices (js "get_primary_services")
    (Some (JObj [(js "request",
                  JObj [(js "deviceId", JStr deviceId);
                        (js "serviceUuid", json_opt JStr serviceUuid)])])).

Definition getCharacteristics (deviceId serviceUuid : jsstring)
    (characteristicUuid : option jsstring)
  : Async S (list BluetoothCharacteristic) :=
  call TCharacteristics (js "get_characteristics")
    (Some (JObj [(js "request",
                  JObj [(js "deviceId", JStr deviceId);
                        (js "serviceUuid", JStr serviceUuid);
                        (js "characteristicUuid",
                         json_opt JStr characteristicUuid)])])).

Definition characteristic_request (deviceId serviceUuid characteristicUuid : jsstring)
  : Json :=
  JObj [(js "request",
         JObj [(js "deviceId", JStr deviceId);
               (js "serviceUuid", JStr serviceUuid);
               (js "characteristicUuid", JStr characteristicUuid)])].

Definition readCharacteristicValue (deviceId serviceUuid characteristicUuid : jsstring)
  : Async S BluetoothValue :=
  call TValue (js "read_characteristic_value")
    (Some (characteristic_request deviceId serviceUuid characteristicUuid)).

(** [withResponse] defaults to [true] when the argument is left out. *)
Definition writeCharacteristicValue
    (deviceId serviceUuid characteristicUuid value : jsstring)
    (withResponse : option bool) : Async S unit :=
  _ <- call TUnknown (js "write_characteristic_value")
    (Some (JObj [(js "request",
                  JObj [(js "deviceId", JStr deviceId);
                        (js "serviceUuid", JStr serviceUuid);
                        (js "characteristicUuid", JStr characteristicUuid);
                        (js "value", JStr value);
                        (js "withResponse",
                         JBool (default true withResponse))])])) ;;
  ret tt.

Definition startNotifications (deviceId serviceUuid characteristicUuid : jsstring)
  : Async S unit :=
  _ <- call TUnknown (js "start_notifications")
    (Some (characteristic_request deviceId serviceUuid characteristicUuid)) ;;
  ret tt.

Definition stopNotifications (deviceId serviceUuid characteristicUuid : jsstring)
  : Async S unit :=
  _ <- call TUnknown (js "stop_notifications")
    (Some (characteristic_request deviceId serviceUuid characteristicUuid)) ;;
  ret tt.
End Commands.
End Guest.

(** * The playground component *)

Module Playground.
Import Guest.
Local Open Scope async_scope.

Inductive ActivityIntent : Type := info | error | event.

(** A log entry.  [log_payload] is the value handed to [log]; its rendering
    as text and the time stamp [ts] of the entry are left out. *)
Record ActivityLog : Type := {
  log_id : Z;
  label : jsstring;
  intent : ActivityIntent;
  log_payload : option Json
}.

Inductive WriteMode : Type := text | base64 | hex.

(** The component's variables, as far as the functions below use them.
    [scanTimeoutMs] is [None] while its number input is empty. *)
Record UiState : Type := {
  devices : list BluetoothDevice;
  activeDeviceId : option jsstring;
  subscribedKeys : list jsstring;
  acceptAllDevices : bool;
  filterServicesInput : jsstring;
  optionalServicesInput : jsstring;
  filterName : jsstring;
  filterNamePrefix : jsstring;
  scanTimeoutMs : option Z;
  workingServiceUuid : jsstring;
  workingCharacteristicUuid : jsstring;
  writeValue : jsstring;
  writeMode : WriteMode;
  logEntries : list ActivityLog;
  logCounter : Z
}.

Definition set_devices (v : list BluetoothDevice) (st : UiState) : UiState :=
  {| devices := v; activeDeviceId := activeDeviceId st;
     subscribedKeys := subscribedKeys st; acceptAllDevices := acceptAllDevices st;
     filterServicesInput := filterServicesInput st;
     optionalServicesInput := optionalServicesInput st;
     filterName := filterName st; filterNamePrefix := filterNamePrefix st;
     scanTimeoutMs := scanTimeoutMs st;
     workingServiceUuid := workingServiceUuid st;
     workingCharacteristicUuid := workingCharacteristicUuid st;
     writeValue := writeValue st; writeMode := writeMode st;
     logEntries := logEntries st; logCounter := logCounter st |}.

Definition set_activeDeviceId (v : option jsstring) (st : UiState) : UiState :=
  {| devices := devices st; activeDeviceId := v;
     subscribedKeys := subscribedKeys st; acceptAllDevices := acceptAllDevices st;
     filterServicesInput := filterServicesInput st;
     optionalServicesInput := optionalServicesInput st;
     filterName := filterName st; filterNamePrefix := filterNamePrefix st;
     scanTimeoutMs := scanTimeoutMs st;
     workingServiceUuid := workingServiceUuid st;
     workingCharacteristicUuid := workingCharacteristicUuid st;
     writeValue := writeValue st; writeMode := writeMode st;
     logEntries := logEntries st; logCounter := logCounter st |}.

Definition set_subscribedKeys (v : list jsstring) (st : UiState) : UiState :=
  {| devices := devices st; activeDeviceId := activeDeviceId st;
     subscribedKeys := v; acceptAllDevices := acceptAllDevices st;
     filterServicesInput := filterServicesInput st;
     optionalServicesInput := optionalServicesInput st;
     filterName := filterName st; filterNamePrefix := filterNamePrefix st;
     scanTimeoutMs := scanTimeoutMs st;
     workingServiceUuid := workingServiceUuid st;
     workingCharacteristicUuid := workingCharacteristicUuid st;
     writeValue := writeValue st; writeMode := writeMode st;
     logEntries := logEntries st; logCounter := logCounter st |}.

(** The two characteristic inputs, as the user types into them. *)
Definition set_working (serviceUuid characteristicUuid : jsstring) (st : UiState)
  : UiState :=
  {| devices := devices st; activeDeviceId := activeDeviceId st;
     subscribedKeys := subscribedKeys st; acceptAllDevices := acceptAllDevices st;
     filterServicesInput := filterServicesInput st;
     optionalServicesInput := optionalServicesInput st;
     filterName := filterName st; filterNamePrefix := filterNamePrefix st;
     scanTimeoutMs := scanTimeoutMs st;
     workingServiceUuid := serviceUuid;
     workingCharacteristicUuid := characteristicUuid;
     writeValue := writeValue st; writeMode := writeMode st;
     logEntries := logEntries st; logCounter := logCounter st |}.

(** The write form: the text area and the encoding selector. *)
Definition set_write (v : jsstring) (mode : WriteMode) (st : UiState) : UiState :=
  {| devices := devices st; activeDeviceId := activeDeviceId st;
     subscribedKeys := subscribedKeys st; acceptAllDevices := acceptAllDevices st;
     filterServicesInput := filterServicesInput st;
     optionalServicesInput := optionalServicesInput st;
     filterName := filterName st; filterNamePrefix := filterNamePrefix st;
     scanTimeoutMs := scanTimeoutMs st;
     workingServiceUuid := workingServiceUuid st;
     workingCharacteristicUuid := workingCharacteristicUuid st;
     writeValue := v; writeMode := mode;
     logEntries := logEntries st; logCounter := logCounter st |}.

Definition set_log (entries : list ActivityLog) (counter : Z) (st : UiState)
  : UiState :=
  {| devices := devices st; activeDeviceId := activeDeviceId st;
     subscribedKeys := subscribedKeys st; acceptAllDevices := acceptAllDevices st;
     filterServicesInput := filterServicesInput st;
     optionalServicesInput := optionalServicesInput st;
     filterName := filterName st; filterNamePrefix := filterNamePrefix st;
     scanTimeoutMs := scanTimeoutMs st;
     workingServiceUuid := workingServiceUuid st;
     workingCharacteristicUuid := workingCharacteristicUuid st;
     writeValue := writeValue st; writeMode := writeMode st;
     logEntries := entries; logCounter := counter |}.

(** The state the component starts in. *)
Definition initial : UiState :=
  {| devices := []; activeDeviceId := None; subscribedKeys := [];
     acceptAllDevices := true; filterServicesInput := [];
     optionalServicesInput := []; filterName := []; filterNamePrefix := [];
     scanTimeoutMs := Some 10000%Z;
     workingServiceUuid := []; workingCharacteristicUuid := [];
     writeValue := []; writeMode := text;
     logEntries := []; logCounter := 0%Z |}.

(** [value.split(',').map((item) => item.trim()).filter(Boolean)] *)
Definition parseList (value : jsstring) : list jsstring :=
  List.filter truthy (map trim (split_comma value)).

Definition describeError (e : JsError) : option jsstring :=
  match e with
  | ErrorObj name message => Some (name ++ js ": " ++ message)
  | Rejected (JStr s) => Some s
  | Rejected v => JSON_stringify v
  end.

(** [++n] on a counter.  Numbers are doubles: below 2^53 the successor is
    exact; at 2^53 the sum 2^53 + 1 rounds back to 2^53, so the counter
    stays there.  (A counter that starts at 0 and is only incremented never
    passes 2^53.) *)
Definition increment (n : Z) : Z :=
  if (n <? 2 ^ 53)%Z then (n + 1)%Z else n.

(** [log(label, payload, intent)]: a new entry at the head, with the id
    [++logCounter], at most 200 entries kept. *)
Definition log (label : jsstring) (payload : option Json) (intent : ActivityIntent)
    (st : UiState) : UiState :=
  let counter := increment (logCounter st) in
  set_log
    (take 200 ({| log_id := counter; label := label; intent := intent;
                  log_payload := payload |} :: logEntries st))
    counter st.

(** [!activeDeviceId] is false exactly for a non-empty id. *)
Definition selected (st : UiState) : option jsstring :=
  match activeDeviceId st with
  | Some d => if truthy d then Some d else None
  | None => None
  end.

Definition ensureDevice : Async UiState jsstring :=
  fun st =>
    match selected st with
    | Some d => Finished (Ok d) st
    | None => Finished (Throw (Error (js "Select or request a device first"))) st
    end.

(** What [refreshDevices] does with the answer of [getDevices]. *)
Definition store_devices (result : list BluetoothDevice) (st : UiState) : UiState :=
  let st1 := set_devices result st in
  let st2 :=
    match selected st1 with
    | Some active =>
        if negb (existsb (fun device => str_eqb (id device) active) result)
        then set_activeDeviceId None st1
        else st1
    | None => st1
    end in
  log (js "get_devices") (Some (JArr (map json_of_device result))) info st2.

Definition refreshDevices : Async UiState unit :=
  result <- getDevices ;;
  modify (store_devices result).

Definition selectDevice (device : BluetoothDevice) (st : UiState) : UiState :=
  log (js "device_selected") (Some (json_of_device device)) info
    (set_activeDeviceId (Some (id device)) st).

(** The constant [hasFilterDetails] of [requestNewDevice]. *)
Definition hasFilterDetails (st : UiState) : bool :=
  (0 <? length (parseList (filterServicesInput st)))%nat
  || (0 <? length (trim (filterName st)))%nat
  || (0 <? length (trim (filterNamePrefix st)))%nat.

(** [s || undefined] on a string and [xs.length ? xs : undefined] on an
    array. *)
Definition nonempty {A} (l : list A) : option (list A) :=
  match l with
  | [] => None
  | _ => Some l
  end.

(** The constant [filters] of [requestNewDevice]. *)
Definition request_filters (st : UiState) : list DeviceFilter :=
  if hasFilterDetails st then
    [ {| filter_services := nonempty (parseList (filterServicesInput st));
         filter_name := nonempty (filterName st);
         filter_namePrefix := nonempty (filterNamePrefix st) |} ]
  else [].

Definition no_filter_message : jsstring :=
  js "Provide at least one filter or enable " ++ dquote
  ++ js "Accept all devices" ++ dquote.

(** The constant [options] of [requestNewDevice]; [scanTimeoutMs ||
    undefined] drops a zero. *)
Definition request_options (st : UiState) : RequestDeviceOptions :=
  let optional := nonempty (parseList (optionalServicesInput st)) in
  let scanTimeout :=
    match scanTimeoutMs st with
    | Some 0%Z | None => None
    | Some ms => Some ms
    end in
  if acceptAllDevices st then
    {| Types.acceptAllDevices := Some true; filters := None;
       optionalServices := optional; Types.scanTimeoutMs := scanTimeout |}
  else
    {| Types.acceptAllDevices := None; filters := Some (request_filters st);
       optionalServices := optional; Types.scanTimeoutMs := scanTimeout |}.

Definition requestNewDevice : Async UiState unit :=
  st <- get ;;
  if negb (acceptAllDevices st) && (length (request_filters st) =? 0)%nat then
    throw (Error no_filter_message)
  else
    device <- requestDevice (request_options st) ;;
    _ <- modify (selectDevice device) ;;
    refreshDevices.

(** ** The value codec *)

(** The result of [decodeValue]; its [hex] property is [hex_text] here,
    [hex] being the write mode. *)
Record DecodedValue : Type := { utf8 : jsstring; hex_text : jsstring }.

(** The constant [bytes] of [decodeValue]:
    [Uint8Array.from(atob(value), (char) => char.charCodeAt(0))]. *)
Definition decodeBytes (value : jsstring) : Outcome (list byte) :=
  match atob value with
  | Ok binary => Ok (Uint8Array_from_chars binary)
  | Throw e => Throw e
  end.

Definition decodeValue (value : jsstring) (st : UiState) : DecodedValue * UiState :=
  match decodeBytes value with
  | Ok bytes =>
      let utf8 :=
        match TextDecoder_decode bytes with
        | Ok s => s
        | Throw _ => js "(failed to decode as UTF-8)"
        end in
      let hex := join (js " ") (map byte_hex bytes) in
      ({| utf8 := utf8; hex_text := hex |}, st)
  | Throw e =>
      ({| utf8 := js "(decode error)"; hex_text := [] |},
       log (js "Base64 decode failed") (JStr <$> describeError e) error st)
  end.

(** The text of this message differs between engines. *)
Definition rangeError_message : jsstring := js "Maximum call stack size exceeded".

Definition RangeError (message : jsstring) : JsError :=
  ErrorObj (js "RangeError") message.

(** [String.fromCharCode(...xs)] with the spread: every element of [xs] is
    passed as an argument of the one call, and the engine throws a
    [RangeError] when there are more of them than it accepts.  That number
    differs between engines; it is the parameter [max_arguments]. *)
Definition fromCharCode_spread (max_arguments : N) (xs : list number)
  : Outcome jsstring :=
  if N.of_nat (length xs) <=? max_arguments then Ok (fromCharCode xs)
  else Throw (RangeError rangeError_message).

(** [btoa(String.fromCharCode(...xs))], the encoding step shared by the
    text and hex modes. *)
Definition encodeBinary (max_arguments : N) (xs : list number) : Outcome jsstring :=
  match fromCharCode_spread max_arguments xs with
  | Ok binary => btoa binary
  | Throw e => Throw e
  end.

Definition encodeWritePayload (max_arguments : N) (st : UiState) : Outcome jsstring :=
  let trimmed := trim (writeValue st) in
  if negb (truthy trimmed) then Throw (Error (js "Provide data before writing"))
  else
    match writeMode st with
    | base64 => Ok trimmed
    | text =>
        let buffer := TextEncoder_encode trimmed in
        encodeBinary max_arguments (spread_bytes buffer)
    | hex =>
        let sanitized := strip_non_hex trimmed in
        if (length sanitized =? 0)%nat || negb (length sanitized mod 2 =? 0)%nat
        then Throw (Error (js "Hex payload must contain an even number of digits"))
        else
          match map parseInt16 <$> match_dot_1_2 sanitized with
          | Some ((_ :: _) as bytes) => encodeBinary max_arguments bytes
          | _ => Throw (Error (js "Invalid hex payload"))
          end
    end.

(** ** Subscriptions *)

Definition subKey (deviceId serviceUuid characteristicUuid : jsstring) : jsstring :=
  deviceId ++ js "|" ++ serviceUuid ++ js "|" ++ characteristicUuid.

(** [keys.includes(key)] *)
Definition includes (keys : list jsstring) (key : jsstring) : bool :=
  existsb (str_eqb key) keys.

Definition characteristic_log (deviceId serviceUuid characteristicUuid : jsstring)
  : Json :=
  JObj [(js "deviceId", JStr deviceId); (js "serviceUuid", JStr serviceUuid);
        (js "characteristicUuid", JStr characteristicUuid)].

(** What [startNotify] does once [startNotifications] has been answered;
    the two inputs are read again at that moment. *)
Definition subscribe (deviceId : jsstring) (st : UiState) : UiState :=
  let key := subKey deviceId (workingServiceUuid st) (workingCharacteristicUuid st) in
  let st1 :=
    if negb (includes (subscribedKeys st) key)
    then set_subscribedKeys (subscribedKeys st ++ [key]) st
    else st in
  log (js "start_notifications")
    (Some (characteristic_log deviceId (workingServiceUuid st)
             (workingCharacteristicUuid st))) info st1.

Definition startNotify : Async UiState unit :=
  deviceId <- ensureDevice ;;
  st <- get ;;
  if negb (truthy (workingServiceUuid st)) || negb (truthy (workingCharacteristicUuid st))
  then throw (Error (js "Set Service and Characteristic before subscribing"))
  else
    _ <- startNotifications deviceId (workingServiceUuid st)
           (workingCharacteristicUuid st) ;;
    modify (subscribe deviceId).

(** What [stopNotify] does once [stopNotifications] has been answered. *)
Definition unsubscribe (deviceId : jsstring) (st : UiState) : UiState :=
  let key := subKey deviceId (workingServiceUuid st) (workingCharacteristicUuid st) in
  let st1 :=
    set_subscribedKeys
      (List.filter (fun item => negb (str_eqb item key)) (subscribedKeys st)) st in
  log (js "stop_notifications")
    (Some (characteristic_log deviceId (workingServiceUuid st)
             (workingCharacteristicUuid st))) info st1.

Definition stopNotify : Async UiState unit :=
  deviceId <- ensureDevice ;;
  st <- get ;;
  if negb (truthy (workingServiceUuid st)) || negb (truthy (workingCharacteristicUuid st))
  then throw (Error (js "Set Service and Characteristic before unsubscribing"))
  else
    _ <- stopNotifications deviceId (workingServiceUuid st)
           (workingCharacteristicUuid st) ;;
    modify (unsubscribe deviceId).

Definition handleDisconnectEvent (payload : DeviceEventPayload) (st : UiState)
  : UiState :=
  let st1 :=
    log (js "event gattserver_disconnected") (Some (json_of_device_event payload))
      event st in
  if bool_decide (Some (deviceId payload) = activeDeviceId st1) then
    set_subscribedKeys
      (List.filter (fun key => negb (startsWith key (deviceId payload ++ js "|")))
         (subscribedKeys st1)) st1
  else st1.

Definition isSubscribed (st : UiState) : bool :=
  match selected st with
  | None => false
  | Some active =>
      if negb (truthy (workingServiceUuid st))
         || negb (truthy (workingCharacteristicUuid st))
      then false
      else includes (subscribedKeys st)
             (subKey active (workingServiceUuid st) (workingCharacteristicUuid st))
  end.

(** The selection pointed at one characteristic of one device: the device
    picked from the list, the two UUIDs typed in. *)
Definition point_at (deviceId serviceUuid characteristicUuid : jsstring)
    (st : UiState) : UiState :=
  set_working serviceUuid characteristicUuid
    (set_activeDeviceId (Some deviceId) st).

End Playground.

(** A host that accepts every command and answers with an empty value of
    the type asked for. *)
Definition empty_response (t : ResponseType) : response t :=
  match t with
  | TBoolean => true
  | TDevice => {| id := js "D1"; name := None; uuids := [];
                  watchingAdvertisements := false; connected := false |}
  | TDevices => []
  | TGattServerInfo => {| gatt_deviceId := js "D1"; gatt_connected := true;
                          gatt_services := [] |}
  | TServices => []
  | TCharacteristics => []
  | TValue => {| value := [] |}
  | TPing => {| ping_value := None |}
  | TUnknown => JNull
  end.

Definition accepting_host : Host :=
  {| host_state := unit;
     answer := fun t _ _ b => (Ok (empty_response t), b) |}.

(** A host that accepts every command and whose device cache is [cache]. *)
Definition host_with_devices (cache : list BluetoothDevice) : Host :=
  {| host_state := unit;
     answer := fun t _ _ b =>
       (match t return Outcome (response t) with
        | TDevices => Ok cache
        | t' => Ok (empty_response t')
        end, b) |}.

(** ** Reference definitions used in the statements *)

(** The 6-bit groups of a byte sequence, three bytes to four groups, the
    last group of a short rest filled with zero bits. *)
Fixpoint sextets (l : list N) : list N :=
  match l with
  | [] => []
  | [a] => [a / 4; (a mod 4) * 16]
  | [a; b] => [a / 4; (a mod 4) * 16 + b / 16; (b mod 16) * 4]
  | a :: b :: c :: rest =>
      a / 4 :: (a mod 4) * 16 + b / 16 :: (b mod 16) * 4 + c / 64 :: c mod 64
      :: sextets rest
  end.

(** The bytes written by a string of hexadecimal digits, two digits to a
    byte, the first digit being the high one. *)
Fixpoint hex_pair_bytes (s : jsstring) : list byte :=
  match s with
  | h :: l :: rest =>
      byte_of_N (16 * default 0 (hex_value h) + default 0 (hex_value l))
      :: hex_pair_bytes rest
  | _ => []
  end.

(** The 22 hexadecimal digits. *)
Definition hex_digits : jsstring := js "0123456789abcdefABCDEF".

#[local] Instance number_eq_dec : EqDecision number.
Proof. solve_decision. Defined.

Import Playground.

(** ** Sample data *)

(** [Accept all devices] switched off and nothing but blanks in the filter
    inputs. *)
Definition no_filter_state : UiState :=
  {| devices := []; activeDeviceId := None; subscribedKeys := [];
     acceptAllDevices := false; filterServicesInput := js " , ";
     optionalServicesInput := []; filterName := js " "; filterNamePrefix := [];
     scanTimeoutMs := Some 10000%Z;
     workingServiceUuid := []; workingCharacteristicUuid := [];
     writeValue := []; writeMode := text;
     logEntries := []; logCounter := 0%Z |}.

(** Options with [acceptAllDevices] false and an empty [filters]. *)
Definition unfiltered_options : RequestDeviceOptions :=
  {| Types.acceptAllDevices := Some false; filters := Some [];
     optionalServices := None; Types.scanTimeoutMs := None |}.

(** Two devices, and one characteristic of the first. *)
Definition device_A : BluetoothDevice :=
  {| id := js "A"; name := None; uuids := [];
     watchingAdvertisements := false; connected := true |}.
Definition device_B : BluetoothDevice :=
  {| id := js "B"; name := None; uuids := [];
     watchingAdvertisements := false; connected := true |}.
Definition on_A : UiState := point_at (js "A") (js "180d") (js "2a37") initial.

(** An argument limit for the examples. *)
Definition sample_max_arguments : N := 65535.

(** A state with two entries in its log, and one whose counter has reached
    2^53, the last integer that [++] raises. *)
Definition logged_twice : UiState :=
  log (js "Devices refreshed") None info
    (log (js "Example UI ready") None info initial).

Definition saturated : UiState :=
  set_log [{| log_id := 2 ^ 53; label := js "Read value"; intent := info;
              log_payload := None |}] (2 ^ 53) initial.

(** The write form holding text with a leading blank, and holding hex
    digits separated by a colon. *)
Definition padded_text : UiState := set_write (js " a") text initial.
Definition colon_hex : UiState := set_write (js "a1:b2") hex initial.

(** A device whose id is the empty string. *)
Definition device_blank : BluetoothDevice :=
  {| id := []; name := None; uuids := [];
     watchingAdvertisements := false; connected := false |}.

(** * The rest of the component

    The functions of the playground that the state [UiState] does not
    cover.  [Component] adds the variables they use; a function written for
    [UiState] runs inside it through [zoom]. *)

Module Actions.
Import Guest.
Local Open Scope async_scope.

(** ** More typed values as JavaScript objects *)

Definition json_of_descriptor (d : BluetoothDescriptor) : Json :=
  JObj [(js "uuid", JStr (descriptor_uuid d))].

Definition json_of_properties (p : CharacteristicProperties) : Json :=
  JObj [(js "broadcast", JBool (broadcast p));
        (js "read", JBool (read p));
        (js "writeWithoutResponse", JBool (writeWithoutResponse p));
        (js "write", JBool (write p));
        (js "notify", JBool (notify p));
        (js "indicate", JBool (indicate p));
        (js "authenticatedSignedWrites", JBool (authenticatedSignedWrites p));
        (js "reliableWrite", JBool (reliableWrite p));
        (js "writableAuxiliaries", JBool (writableAuxiliaries p))].

Definition json_of_characteristic (c : BluetoothCharacteristic) : Json :=
  JObj [(js "uuid", JStr (characteristic_uuid c));
        (js "properties", json_of_properties (properties c));
        (js "descriptors", JArr (map json_of_descriptor (descriptors c)))].

Definition json_of_service (s : BluetoothService) : Json :=
  JObj [(js "uuid", JStr (service_uuid s));
        (js "isPrimary", JBool (isPrimary s));
        (js "characteristics",
         JArr (map json_of_characteristic (Types.characteristics s)))].

Definition json_of_gatt (g : GattServerInfo) : Json :=
  JObj [(js "deviceId", JStr (gatt_deviceId g));
        (js "connected", JBool (gatt_connected g));
        (js "services", JArr (map json_of_service (gatt_services g)))].

Definition json_of_notification (p : NotificationEventPayload) : list (jsstring * Json) :=
  [(js "deviceId", JStr (event_deviceId p));
   (js "serviceUuid", JStr (event_serviceUuid p));
   (js "characteristicUuid", JStr (event_characteristicUuid p));
   (js "value", JStr (event_value p))].

Definition mode_name (m : WriteMode) : jsstring :=
  match m with
  | text => js "text"
  | base64 => js "base64"
  | hex => js "hex"
  end.

(** ** Functions over [UiState] *)

(** The derived value [currentDevice]:
    [devices.find((device) => device.id === activeDeviceId) ?? null]. *)
Definition currentDevice (st : UiState) : option BluetoothDevice :=
  match activeDeviceId st with
  | Some active => List.find (fun device => str_eqb (id device) active) (devices st)
  | None => None
  end.

Definition handleNotification (payload : NotificationEventPayload) (st : UiState)
  : UiState :=
  let '(decoded, st1) := decodeValue (event_value payload) st in
  log (js "event characteristic_value_changed")
    (Some (JObj (json_of_notification payload
                 ++ [(js "utf8", JStr (utf8 decoded));
                     (js "hex", JStr (hex_text decoded))])))
    event st1.

(** ** The full state *)

(** [lastRead]: [{ base64, utf8, hex }]. *)
Record LastRead : Type := {
  read_base64 : jsstring;
  read_utf8 : jsstring;
  read_hex : jsstring
}.

Record Component : Type := {
  ui : UiState;
  availability : option bool;
  services : list BluetoothService;
  characteristics : list BluetoothCharacteristic;
  lastRead : option LastRead;
  primaryServiceFilter : jsstring;
  withResponse : bool;
  busy : gmap (list N) bool
}.

Definition with_ui (u : UiState) (c : Component) : Component :=
  {| ui := u; availability := availability c; services := services c;
     characteristics := characteristics c; lastRead := lastRead c;
     primaryServiceFilter := primaryServiceFilter c;
     withResponse := withResponse c; busy := busy c |}.

Definition set_availability (v : option bool) (c : Component) : Component :=
  {| ui := ui c; availability := v; services := services c;
     characteristics := characteristics c; lastRead := lastRead c;
     primaryServiceFilter := primaryServiceFilter c;
     withResponse := withResponse c; busy := busy c |}.

Definition set_services (v : list BluetoothService) (c : Component) : Component :=
  {| ui := ui c; availability := availability c; services := v;
     characteristics := characteristics c; lastRead := lastRead c;
     primaryServiceFilter := primaryServiceFilter c;
     withResponse := withResponse c; busy := busy c |}.

Definition set_characteristics (v : list BluetoothCharacteristic) (c : Component)
  : Component :=
  {| ui := ui c; availability := availability c; services := services c;
     characteristics := v; lastRead := lastRead c;
     primaryServiceFilter := primaryServiceFilter c;
     withResponse := withResponse c; busy := busy c |}.

Definition set_lastRead (v : option LastRead) (c : Component) : Component :=
  {| ui := ui c; availability := availability c; services := services c;
     characteristics := characteristics c; lastRead := v;
     primaryServiceFilter := primaryServiceFilter c;
     withResponse := withResponse c; busy := busy c |}.

(** [setBusy(key, state)]: [busy = { ...busy, [key]: state }]. *)
Definition setBusy (key : jsstring) (state : bool) (c : Component) : Component :=
  {| ui := ui c; availability := availability c; services := services c;
     characteristics := characteristics c; lastRead := lastRead c;
     primaryServiceFilter := primaryServiceFilter c;
     withResponse := withResponse c; busy := <[key := state]> (busy c) |}.

(** [busy[key]] as a condition: a missing key is falsy. *)
Definition is_busy (key : jsstring) (c : Component) : bool :=
  default false (busy c !! key).

(** The component as it is mounted. *)
Definition mounted : Component :=
  {| ui := initial; availability := None; services := []; characteristics := [];
     lastRead := None; primaryServiceFilter := []; withResponse := true;
     busy := ∅ |}.

(** A function of [UiState] run on the [ui] part of the full state; after
    a suspension it goes on with the [ui] part found then. *)
Fixpoint zoom_step {A} (p : Step UiState A) (c : Component) : Step Component A :=
  match p with
  | Finished o u => Finished o (with_ui u c)
  | Awaiting t command payload u resume =>
      Awaiting t command payload (with_ui u c)
        (fun r c' => zoom_step (resume r (ui c')) c')
  end.

Definition zoom {A} (m : Async UiState A) : Async Component A :=
  fun c => zoom_step (m (ui c)) c.

(** [log] on the full state. *)
Definition log_c (label : jsstring) (payload : option Json) (intent : ActivityIntent)
    (c : Component) : Component :=
  with_ui (log label payload intent (ui c)) c.

(** ** [try], [catch] and [finally] *)

Fixpoint step_catch {S A} (p : Step S A) (handler : JsError -> Async S A) : Step S A :=
  match p with
  | Finished (Ok a) s => Finished (Ok a) s
  | Finished (Throw e) s => handler e s
  | Awaiting t command payload s resume =>
      Awaiting t command payload s (fun r s' => step_catch (resume r s') handler)
  end.

Fixpoint step_finally {S A} (p : Step S A) (cleanup : S -> S) : Step S A :=
  match p with
  | Finished o s => Finished o (cleanup s)
  | Awaiting t command payload s resume =>
      Awaiting t command payload s (fun r s' => step_finally (resume r s') cleanup)
  end.

(** [run(key, task)]: nothing when the key is busy; otherwise the task
    between [setBusy(key, true)] and [setBusy(key, false)], a failure of the
    task being logged and not passed on. *)
Definition run (key : jsstring) (task : Async Component unit) : Async Component unit :=
  fun c =>
    if is_busy key c then Finished (Ok tt) c
    else
      step_finally
        (step_catch (task (setBusy key true c))
           (fun e c' =>
              Finished (Ok tt)
                (log_c (js "Command " ++ key ++ js " failed")
                   (JStr <$> describeError e) error c')))
        (setBusy key false).

(** ** The commands of the panel *)

Definition refreshAvailability : Async Component unit :=
  result <- getAvailability ;;
  modify (fun c =>
            log_c (js "get_availability")
              (Some (JObj [(js "availability", JBool result)])) info
              (set_availability (Some result) c)).

Definition connectDevice : Async Component unit :=
  deviceId <- zoom ensureDevice ;;
  gatt <- connectGATT deviceId ;;
  modify (log_c (js "connect_gatt") (Some (json_of_gatt gatt)) info).

Definition disconnectDevice : Async Component unit :=
  deviceId <- zoom ensureDevice ;;
  _ <- disconnectGATT deviceId ;;
  modify (log_c (js "disconnect_gatt")
            (Some (JObj [(js "deviceId", JStr deviceId)])) info).

(** The assignment [if (deviceId === activeDeviceId) activeDeviceId = null]. *)
Definition deselect (deviceId : jsstring) (st : UiState) : UiState :=
  if bool_decide (Some deviceId = activeDeviceId st)
  then set_activeDeviceId None st
  else st.

Definition forgetDeviceById (deviceId : jsstring) : Async Component unit :=
  _ <- forgetDevice deviceId ;;
  _ <- modify (fun c => with_ui (deselect deviceId (ui c)) c) ;;
  _ <- zoom refreshDevices ;;
  modify (log_c (js "forget_device")
            (Some (JObj [(js "deviceId", JStr deviceId)])) info).

Definition fetchServices : Async Component unit :=
  deviceId <- zoom ensureDevice ;;
  c <- get ;;
  result <- getPrimaryServices deviceId (nonempty (primaryServiceFilter c)) ;;
  modify (fun c' =>
            log_c (js "get_primary_services")
              (Some (JArr (map json_of_service result))) info
              (set_services result c')).

Definition fetchCharacteristics : Async Component unit :=
  deviceId <- zoom ensureDevice ;;
  c <- get ;;
  if negb (truthy (workingServiceUuid (ui c))) then
    throw (Error (js "Set a Service UUID before loading characteristics"))
  else
    result <- getCharacteristics deviceId (workingServiceUuid (ui c))
                (nonempty (workingCharacteristicUuid (ui c))) ;;
    modify (fun c' =>
              log_c (js "get_characteristics")
                (Some (JArr (map json_of_characteristic result))) info
                (set_characteristics result c')).

(** What [readCharacteristic] does with the value read. *)
Definition store_read (result : BluetoothValue) (c : Component) : Component :=
  let '(decoded, u1) := decodeValue (value result) (ui c) in
  let c1 :=
    set_lastRead
      (Some {| read_base64 := value result; read_utf8 := utf8 decoded;
               read_hex := hex_text decoded |})
      (with_ui u1 c) in
  log_c (js "read_characteristic_value")
    (Some (JObj [(js "utf8", JStr (utf8 decoded));
                 (js "hex", JStr (hex_text decoded));
                 (js "base64", JStr (value result))])) info c1.

Definition readCharacteristic : Async Component unit :=
  deviceId <- zoom ensureDevice ;;
  c <- get ;;
  if negb (truthy (workingServiceUuid (ui c)))
     || negb (truthy (workingCharacteristicUuid (ui c)))
  then throw (Error (js "Set Service and Characteristic before reading"))
  else
    result <- readCharacteristicValue deviceId (workingServiceUuid (ui c))
                (workingCharacteristicUuid (ui c)) ;;
    modify (store_read result).

(** [max_arguments] is the engine's limit that [encodeWritePayload] meets. *)
Definition writeCharacteristic (max_arguments : N) : Async Component unit :=
  deviceId <- zoom ensureDevice ;;
  c <- get ;;
  if negb (truthy (workingServiceUuid (ui c)))
     || negb (truthy (workingCharacteristicUuid (ui c)))
  then throw (Error (js "Set Service and Characteristic before writing"))
  else
    match encodeWritePayload max_arguments (ui c) with
    | Throw e => throw e
    | Ok payload =>
        _ <- writeCharacteristicValue deviceId (workingServiceUuid (ui c))
               (workingCharacteristicUuid (ui c)) payload (Some (withResponse c)) ;;
        modify (fun c' =>
                  log_c (js "write_characteristic_value")
                    (Some (JObj [(js "withResponse", JBool (withResponse c'));
                                 (js "payloadMode",
                                  JStr (mode_name (writeMode (ui c'))))])) info c')
    end.

End Actions.

(** ** Runs with their invocations *)

(** The commands a sequential run sends to the host, in order, each with
    its payload. *)
Fixpoint run_trace {S A} (h : Host) (p : Step S A) (b : host_state h)
  : list (jsstring * Json) :=
  match p with
  | Finished _ _ => []
  | Awaiting t command payload s resume =>
      let '(r, b') := answer h t command payload b in
      (command, payload) :: run_trace h (resume r s) b'
  end.

(** A host that accepts every command and answers every read with the
    value [v]. *)
Definition host_with_value (v : jsstring) : Host :=
  {| host_state := unit;
     answer := fun t _ _ b =>
       (match t return Outcome (response t) with
        | TValue => Ok {| value := v |}
        | t' => Ok (empty_response t')
        end, b) |}.

(** A host that rejects every command with the same value. *)
Definition rejecting_host (reason : Json) : Host :=
  {| host_state := unit;
     answer := fun t _ _ b => (Throw (Rejected reason), b) |}.

(** ** Conditions used in the further properties *)

(** The log as the list rendering needs it, keyed by [entry.id]: at most
    200 entries, ids strictly decreasing from the head, none above the
    counter. *)
Definition log_ok (st : UiState) : Prop :=
  (length (logEntries st) <= 200)%nat
  /\ StronglySorted (fun a b => (log_id a > log_id b)%Z) (logEntries st)
  /\ Forall (fun e => (log_id e <= logCounter st)%Z) (logEntries st).

(** No vertical bar, the separator of [subKey], in a string. *)
Definition bar_free (s : jsstring) : Prop := ~ In 124 s.

(** A string is well formed when its code units are below 0x10000 and
    every surrogate is half of a pair: a lead followed by a trail. *)
Fixpoint well_formed (s : jsstring) : bool :=
  match s with
  | [] => true
  | c :: rest =>
      if is_lead_surrogate c then
        match rest with
        | d :: rest' => is_trail_surrogate d && well_formed rest'
        | [] => false
        end
      else negb (is_trail_surrogate c) && (c <? 0x10000) && well_formed rest
  end.

(** Unicode scalar values: code points that are not surrogates. *)
Definition is_scalar (cp : N) : Prop :=
  cp < 0x110000 /\ (cp < 0xD800 \/ 0xDFFF < cp).

(** * Properties *)

Ltac N_cases :=
  repeat match goal with
    | |- context [N.ltb ?a ?b] => destruct (N.ltb_spec a b)
    | |- context [N.leb ?a ?b] => destruct (N.leb_spec a b)
    | |- context [N.eqb ?a ?b] => destruct (N.eqb_spec a b)
    end;
  cbn [andb orb negb].

Ltac div_mod_lia := zify; Z.to_euclidean_division_equations; lia.

(** ** Base64 *)

Lemma list_ind3 {A} (P : list A -> Prop) :
  P [] -> (forall a, P [a]) -> (forall a b, P [a; b]) ->
  (forall a b c rest, P rest -> P (a :: b :: c :: rest)) ->
  forall l, P l.
Proof.
  intros H0 H1 H2 H3.
  assert (H : forall l, P l /\ (forall a, P (a :: l)) /\ (forall a b, P (a :: b :: l))).
  { induction l as [|x l (IH0 & IH1 & IH2)]; repeat split; auto. }
  intros l. apply H.
Qed.

Lemma b64_value_char v : v < 64 -> b64_value (b64_char v) = Some v.
Proof.
  intros Hv. unfold b64_char.
  destruct (N.ltb_spec v 26); [|destruct (N.ltb_spec v 52);
    [|destruct (N.ltb_spec v 62); [|destruct (N.eqb_spec v 62)]]];
  unfold b64_value; N_cases; try lia; f_equal; lia.
Qed.

Lemma b64_char_plain v :
  v < 64 -> is_ascii_whitespace (b64_char v) = false /\ b64_char v <> 61.
Proof.
  intros Hv. unfold b64_char.
  destruct (N.ltb_spec v 26); [|destruct (N.ltb_spec v 52);
    [|destruct (N.ltb_spec v 62); [|destruct (N.eqb_spec v 62)]]];
  (split; [unfold is_ascii_whitespace; N_cases; try reflexivity; lia | lia]).
Qed.

Lemma sextets_bound l :
  Forall (fun x => x < 256) l -> Forall (fun v => v < 64) (sextets l).
Proof.
  induction l as [|a|a b|a b c rest IH] using list_ind3; intros H; cbn [sextets].
  - apply List.Forall_nil.
  - inversion_clear H.
    repeat (apply List.Forall_cons; [div_mod_lia|]). apply List.Forall_nil.
  - inversion_clear H as [|? ? Ha H']. inversion_clear H'.
    repeat (apply List.Forall_cons; [div_mod_lia|]). apply List.Forall_nil.
  - inversion_clear H as [|? ? Ha H']. inversion_clear H' as [|? ? Hb H''].
    inversion_clear H'' as [|? ? Hc Hrest].
    do 4 (apply List.Forall_cons; [div_mod_lia|]). auto.
Qed.

Lemma b64_decode_sextets l :
  Forall (fun x => x < 256) l -> b64_decode (sextets l) = l.
Proof.
  induction l as [|a|a b|a b c rest IH] using list_ind3; intros H.
  - reflexivity.
  - inversion_clear H. cbn. f_equal. div_mod_lia.
  - inversion_clear H as [|? ? Ha H']. inversion_clear H'.
    cbn. f_equal; [|f_equal]; div_mod_lia.
  - inversion_clear H as [|? ? Ha H']. inversion_clear H' as [|? ? Hb H''].
    inversion_clear H'' as [|? ? Hc Hrest].
    cbn [sextets b64_decode]. rewrite IH by assumption.
    f_equal; [|f_equal; [|f_equal]]; div_mod_lia.
Qed.

Lemma mapM_b64_value vs :
  Forall (fun v => v < 64) vs -> mapM b64_value (map b64_char vs) = Some vs.
Proof.
  induction 1 as [|v vs Hv _ IH]; [reflexivity|].
  cbn. rewrite b64_value_char by assumption. cbn. rewrite IH. reflexivity.
Qed.

Lemma strip_padding_plain c rest :
  c <> 61 -> strip_padding (c :: rest) = c :: strip_padding rest.
Proof.
  intros Hc. cbn [strip_padding].
  destruct (N.eqb_spec c 61); [contradiction|reflexivity].
Qed.

Lemma strip_padding_chars vs :
  Forall (fun v => v < 64) vs ->
  strip_padding (map b64_char vs) = map b64_char vs.
Proof.
  induction 1 as [|v vs Hv _ IH]; [reflexivity|].
  cbn [map]. rewrite strip_padding_plain by (apply b64_char_plain; assumption).
  f_equal. exact IH.
Qed.

Lemma strip_padding_encode l :
  Forall (fun x => x < 256) l ->
  strip_padding (b64_encode l) = map b64_char (sextets l).
Proof.
  intros H. pose proof (sextets_bound l H) as Hs. revert H Hs.
  induction l as [|a|a b|a b c rest IH] using list_ind3; intros H Hs;
    cbn [sextets b64_encode map] in *.
  - reflexivity.
  - inversion_clear Hs as [|? ? H1 Hs']. inversion_clear Hs' as [|? ? H2 _].
    rewrite !strip_padding_plain by (apply b64_char_plain; assumption).
    reflexivity.
  - inversion_clear Hs as [|? ? H1 Hs']. inversion_clear Hs' as [|? ? H2 Hs''].
    inversion_clear Hs'' as [|? ? H3 _].
    rewrite !strip_padding_plain by (apply b64_char_plain; assumption).
    reflexivity.
  - inversion_clear Hs as [|? ? H1 Hs']. inversion_clear Hs' as [|? ? H2 Hs''].
    inversion_clear Hs'' as [|? ? H3 Hs3]. inversion_clear Hs3 as [|? ? H4 Hrest].
    rewrite !strip_padding_plain by (apply b64_char_plain; assumption).
    do 3 (inversion_clear H as [|? ? _ H']; rename H' into H).
    rewrite IH by assumption. reflexivity.
Qed.

Lemma filter_whitespace_encode l :
  Forall (fun x => x < 256) l ->
  List.filter (fun c => negb (is_ascii_whitespace c)) (b64_encode l) = b64_encode l.
Proof.
  intros H. pose proof (sextets_bound l H) as Hs. revert H Hs.
  assert (Hkeep : forall v rest, v < 64 ->
            List.filter (fun c => negb (is_ascii_whitespace c)) (b64_char v :: rest)
            = b64_char v :: List.filter (fun c => negb (is_ascii_whitespace c)) rest).
  { intros v rest Hv. cbn [List.filter].
    destruct (b64_char_plain v Hv) as [-> _]. reflexivity. }
  induction l as [|a|a b|a b c rest IH] using list_ind3; intros H Hs;
    cbn [sextets b64_encode] in *.
  - reflexivity.
  - inversion_clear Hs as [|? ? H1 Hs']. inversion_clear Hs' as [|? ? H2 _].
    rewrite !Hkeep by assumption. reflexivity.
  - inversion_clear Hs as [|? ? H1 Hs']. inversion_clear Hs' as [|? ? H2 Hs''].
    inversion_clear Hs'' as [|? ? H3 _].
    rewrite !Hkeep by assumption. reflexivity.
  - inversion_clear Hs as [|? ? H1 Hs']. inversion_clear Hs' as [|? ? H2 Hs''].
    inversion_clear Hs'' as [|? ? H3 Hs3]. inversion_clear Hs3 as [|? ? H4 Hrest].
    rewrite !Hkeep by assumption.
    do 3 (inversion_clear H as [|? ? _ H']; rename H' into H).
    rewrite IH by assumption. reflexivity.
Qed.

Lemma length_encode l : N.of_nat (length (b64_encode l)) mod 4 = 0.
Proof.
  induction l as [|a|a b|a b c rest IH] using list_ind3; try reflexivity.
  change (b64_encode (a :: b :: c :: rest))
    with ([b64_char (a / 4); b64_char ((a mod 4) * 16 + b / 16);
           b64_char ((b mod 16) * 4 + c / 64); b64_char (c mod 64)]
          ++ b64_encode rest).
  rewrite length_app, Nat2N.inj_add. cbn [length].
  revert IH. generalize (N.of_nat (length (b64_encode rest))). intros n Hn.
  div_mod_lia.
Qed.

Lemma length_sextets l : N.of_nat (length (sextets l)) mod 4 <> 1.
Proof.
  induction l as [|a|a b|a b c rest IH] using list_ind3;
    try (intros E; vm_compute in E; discriminate E).
  change (sextets (a :: b :: c :: rest))
    with ([a / 4; (a mod 4) * 16 + b / 16; (b mod 16) * 4 + c / 64; c mod 64]
          ++ sextets rest).
  rewrite length_app, Nat2N.inj_add. cbn [length].
  revert IH. generalize (N.of_nat (length (sextets rest))). intros n Hn.
  div_mod_lia.
Qed.

(** Decoding undoes encoding on byte values. *)
Lemma forgiving_base64_decode_encode l :
  Forall (fun x => x < 256) l ->
  forgiving_base64_decode (b64_encode l) = Some l.
Proof.
  intros H. unfold forgiving_base64_decode.
  rewrite filter_whitespace_encode by assumption.
  rewrite length_encode. cbn [N.eqb].
  rewrite strip_padding_encode by assumption.
  rewrite length_map.
  destruct (N.eqb_spec (N.of_nat (length (sextets l)) mod 4) 1) as [E|_].
  { exfalso. exact (length_sextets l E). }
  rewrite mapM_b64_value by (apply sextets_bound; assumption).
  cbn. rewrite b64_decode_sextets by assumption. reflexivity.
Qed.

(** ** Bytes through [String.fromCharCode], [btoa] and back *)

Lemma to_N_lt b : Byte.to_N b < 256.
Proof. pose proof (Byte.to_N_bounded b). lia. Qed.

Lemma byte_of_to_N b : byte_of_N (Byte.to_N b) = b.
Proof.
  unfold byte_of_N. rewrite N.mod_small by apply to_N_lt.
  rewrite Byte.of_to_N. reflexivity.
Qed.

Lemma to_N_byte_of_N n : n < 256 -> Byte.to_N (byte_of_N n) = n.
Proof.
  intros Hn. unfold byte_of_N. rewrite N.mod_small by assumption.
  destruct (Byte.of_N n) as [b|] eqn:E.
  - apply Byte.to_of_N. exact E.
  - apply Byte.of_N_None_iff in E. lia.
Qed.

Lemma fromCharCode_bytes bs : fromCharCode (spread_bytes bs) = map Byte.to_N bs.
Proof.
  unfold fromCharCode, spread_bytes. rewrite map_map.
  apply map_ext. intros b. cbn [toUint16].
  pose proof (to_N_lt b). rewrite Z.mod_small by lia. apply N2Z.id.
Qed.

Lemma bytes_below_256 bs : Forall (fun x => x < 256) (map Byte.to_N bs).
Proof.
  induction bs as [|b bs IH]; [apply List.Forall_nil|].
  apply List.Forall_cons; [apply to_N_lt | exact IH].
Qed.

(** The encoding step on bytes: their base64 within the argument limit, a
    [RangeError] beyond it. *)
Lemma encodeBinary_bytes max_arguments bs :
  encodeBinary max_arguments (spread_bytes bs)
  = if N.of_nat (length bs) <=? max_arguments
    then Ok (b64_encode (map Byte.to_N bs))
    else Throw (RangeError rangeError_message).
Proof.
  unfold encodeBinary, fromCharCode_spread.
  replace (length (spread_bytes bs)) with (length bs)
    by (unfold spread_bytes; symmetry; apply length_map).
  destruct (N.of_nat (length bs) <=? max_arguments); [|reflexivity].
  unfold btoa. rewrite fromCharCode_bytes.
  replace (forallb (fun c => c <=? 255) (map Byte.to_N bs)) with true; [reflexivity|].
  symmetry. apply forallb_forall. intros x Hx.
  apply in_map_iff in Hx as (b & <- & _).
  apply N.leb_le. apply Byte.to_N_bounded.
Qed.

Lemma encodeBinary_within max_arguments bs :
  N.of_nat (length bs) <= max_arguments ->
  encodeBinary max_arguments (spread_bytes bs) = Ok (b64_encode (map Byte.to_N bs)).
Proof.
  intros H. rewrite encodeBinary_bytes.
  destruct (N.leb_spec (N.of_nat (length bs)) max_arguments); [reflexivity|lia].
Qed.

Lemma encodeBinary_Ok max_arguments bs payload :
  encodeBinary max_arguments (spread_bytes bs) = Ok payload ->
  payload = b64_encode (map Byte.to_N bs).
Proof.
  rewrite encodeBinary_bytes.
  destruct (_ <=? _); [intros [= <-]; reflexivity | discriminate].
Qed.

Lemma decodeBytes_encode bs :
  decodeBytes (b64_encode (map Byte.to_N bs)) = Ok bs.
Proof.
  unfold decodeBytes, atob.
  rewrite forgiving_base64_decode_encode by apply bytes_below_256.
  unfold Uint8Array_from_chars. rewrite map_map.
  f_equal. rewrite <- (map_id bs) at 2.
  apply map_ext. intros b. apply byte_of_to_N.
Qed.

(** ** Text-mode payloads *)

Lemma truthy_nonempty (s : jsstring) : s <> [] -> truthy s = true.
Proof. destruct s; [contradiction|reflexivity]. Qed.

(** C7, as the code has it.  For every text-mode input whose trimmed form
    is not empty, a payload that is produced base64-decodes to exactly the
    UTF-8 encoding of the trimmed input: the input is trimmed, then UTF-8
    encoded, then base64 encoded.  A payload is produced when that encoding
    has no more bytes than the engine accepts as arguments of one call;
    with more, the encoding throws a [RangeError]. *)
Theorem text_payload_decodes (max_arguments : N) (st : UiState) :
  writeMode st = text ->
  trim (writeValue st) <> [] ->
  let bytes := TextEncoder_encode (trim (writeValue st)) in
  (forall payload,
      encodeWritePayload max_arguments st = Ok payload ->
      decodeBytes payload = Ok bytes)
  /\ (N.of_nat (length bytes) <= max_arguments ->
      exists payload, encodeWritePayload max_arguments st = Ok payload)
  /\ (max_arguments < N.of_nat (length bytes) ->
      encodeWritePayload max_arguments st = Throw (RangeError rangeError_message)).
Proof.
  intros Hmode Hdata. cbv zeta. unfold encodeWritePayload.
  rewrite truthy_nonempty by assumption. rewrite Hmode. cbn [negb].
  rewrite encodeBinary_bytes.
  destruct (N.leb_spec (N.of_nat (length (TextEncoder_encode (trim (writeValue st)))))
              max_arguments) as [Hfits|Hlong].
  - split; [|split].
    + intros payload [= <-]. apply decodeBytes_encode.
    + intros _. eexists. reflexivity.
    + intros H. lia.
  - split; [|split].
    + intros payload H. discriminate H.
    + intros H. lia.
    + intros _. reflexivity.
Qed.

Lemma text_payload_decodes_witness :
  (forall payload,
      encodeWritePayload sample_max_arguments padded_text = Ok payload ->
      decodeBytes payload = Ok [x61])
  /\ (exists payload, encodeWritePayload sample_max_arguments padded_text = Ok payload)
  /\ encodeWritePayload 0 padded_text = Throw (RangeError rangeError_message).
Proof.
  pose proof (text_payload_decodes sample_max_arguments padded_text eq_refl)
    as Hsample.
  pose proof (text_payload_decodes 0 padded_text eq_refl) as Hnone.
  cbv zeta in Hsample, Hnone.
  assert (Hdata : trim (writeValue padded_text) <> []) by (vm_compute; discriminate).
  destruct (Hsample Hdata) as (Hdecodes & Hproduced & _).
  destruct (Hnone Hdata) as (_ & _ & Hthrows).
  split; [exact Hdecodes|]. split.
  - apply Hproduced. vm_compute. discriminate.
  - apply Hthrows. reflexivity.
Defined.

(** C7 as stated fails: the input [" a"] is not empty, and its payload
    decodes to the one byte of ["a"], not to the two bytes that encode
    [" a"] in UTF-8. *)
Lemma text_payload_untrimmed_counterexample :
  writeMode padded_text = text
  /\ writeValue padded_text = js " a"
  /\ encodeWritePayload sample_max_arguments padded_text = Ok (js "YQ==")
  /\ decodeBytes (js "YQ==") = Ok [x61]
  /\ TextEncoder_encode (writeValue padded_text) = [x20; x61].
Proof. repeat split. Qed.

(** ** Hex-mode payloads *)

(** C4, as the code has it.  In hex mode the input is trimmed and every
    character that is not a hex digit is dropped; if what is left is empty
    or has odd length, encoding throws and no payload is produced: [Provide
    data before writing] when the trimmed input is already empty, otherwise
    [Hex payload must contain an even number of digits]. *)
Theorem hex_payload_rejected (max_arguments : N) (st : UiState) :
  writeMode st = hex ->
  strip_non_hex (trim (writeValue st)) = []
  \/ (length (strip_non_hex (trim (writeValue st))) mod 2 = 1)%nat ->
  encodeWritePayload max_arguments st
  = Throw (Error (if truthy (trim (writeValue st))
                  then js "Hex payload must contain an even number of digits"
                  else js "Provide data before writing")).
Proof.
  intros Hmode Hbad. unfold encodeWritePayload. rewrite Hmode.
  destruct (truthy (trim (writeValue st))); cbn [negb]; [|reflexivity].
  destruct Hbad as [-> | Hodd]; [reflexivity|].
  rewrite Hodd. rewrite orb_true_r. reflexivity.
Qed.

Lemma hex_payload_rejected_witness :
  encodeWritePayload sample_max_arguments (set_write (js "a1b") hex initial)
  = Throw (Error (js "Hex payload must contain an even number of digits")).
Proof.
  apply (hex_payload_rejected sample_max_arguments
           (set_write (js "a1b") hex initial)).
  - reflexivity.
  - right. reflexivity.
Defined.

(** C4 as stated fails: ["a1:b2"] has odd length and contains a colon, and
    a payload is produced from it all the same, the base64 of the bytes
    0xA1 0xB2. *)
Lemma hex_payload_sanitized_counterexample :
  writeMode colon_hex = hex
  /\ writeValue colon_hex = js "a1:b2"
  /\ (length (writeValue colon_hex) mod 2 = 1)%nat
  /\ Exists (fun c => is_hex_digit c = false) (writeValue colon_hex)
  /\ encodeWritePayload sample_max_arguments colon_hex = Ok (js "obI=")
  /\ decodeBytes (js "obI=") = Ok [xa1; xb2].
Proof.
  repeat split.
  apply Exists_cons_tl, Exists_cons_tl, Exists_cons_hd. reflexivity.
Qed.

Lemma hex_digit_listed c : is_hex_digit c = true -> In c hex_digits.
Proof.
  unfold is_hex_digit, hex_value. N_cases; try discriminate; intros _;
    vm_compute; lia.
Qed.

Lemma hex_digit_plain c :
  is_hex_digit c = true -> is_js_space c = false /\ is_line_terminator c = false.
Proof.
  intros H. apply hex_digit_listed in H. revert c H.
  apply (proj1 (List.Forall_forall _ hex_digits)). vm_compute.
  repeat (apply List.Forall_cons; [split; reflexivity|]). apply List.Forall_nil.
Qed.

(** [parseInt] of two hex digits is sixteen times the first plus the
    second; checked on the 22 x 22 pairs of digits. *)
Lemma parseInt16_pair h l :
  is_hex_digit h = true -> is_hex_digit l = true ->
  parseInt16 [h; l]
  = Int (Z.of_N (16 * default 0 (hex_value h) + default 0 (hex_value l))).
Proof.
  intros Hh Hl. apply hex_digit_listed in Hh, Hl.
  assert (Hall : forallb (fun h => forallb (fun l =>
            bool_decide (parseInt16 [h; l]
              = Int (Z.of_N (16 * default 0 (hex_value h) + default 0 (hex_value l)))))
            hex_digits) hex_digits = true) by (vm_compute; reflexivity).
  rewrite forallb_forall in Hall. specialize (Hall h Hh).
  rewrite forallb_forall in Hall. specialize (Hall l Hl).
  apply bool_decide_eq_true in Hall. exact Hall.
Qed.

Lemma hex_pair_below_256 h l :
  is_hex_digit h = true -> is_hex_digit l = true ->
  16 * default 0 (hex_value h) + default 0 (hex_value l) < 256.
Proof.
  unfold is_hex_digit, hex_value.
  intros Hh Hl. revert Hh Hl. N_cases; try discriminate; intros _ _; cbn; lia.
Qed.

Lemma trimStart_plain c (s : jsstring) :
  is_js_space c = false -> trimStart (c :: s) = c :: s.
Proof. intros H. cbn. rewrite H. reflexivity. Qed.

Lemma trim_hex (s : jsstring) :
  Forall (fun c => is_hex_digit c = true) s -> trim s = s.
Proof.
  intros H. unfold trim, trimEnd.
  assert (Hstart : forall t : jsstring,
            Forall (fun c => is_hex_digit c = true) t -> trimStart t = t).
  { intros [|c t] Ht; [reflexivity|]. apply trimStart_plain.
    inversion_clear Ht as [|? ? Hc _]. apply hex_digit_plain. exact Hc. }
  rewrite (Hstart s H). rewrite Hstart by (apply List.Forall_rev; exact H).
  apply rev_involutive.
Qed.

Lemma strip_non_hex_id (s : jsstring) :
  Forall (fun c => is_hex_digit c = true) s -> strip_non_hex s = s.
Proof.
  unfold strip_non_hex. induction 1 as [|c s Hc _ IH]; [reflexivity|].
  cbn. rewrite Hc, IH. reflexivity.
Qed.

(** On an even number of hex digits, [match] cuts pairs and [parseInt]
    reads each pair as the byte it writes. *)
Lemma parse_pairs (n : nat) : forall s : jsstring,
  length s = (2 * n)%nat ->
  Forall (fun c => is_hex_digit c = true) s ->
  map parseInt16 (dot_chunks s) = spread_bytes (hex_pair_bytes s).
Proof.
  induction n as [|n IH]; intros s Hlen Hhex.
  - destruct s; [reflexivity|discriminate].
  - destruct s as [|h [|l rest]]; try (cbn in Hlen; lia).
    inversion_clear Hhex as [|? ? Hh Hhex']. inversion_clear Hhex' as [|? ? Hl Hrest].
    cbn [dot_chunks hex_pair_bytes].
    destruct (hex_digit_plain h Hh) as [_ ->].
    destruct (hex_digit_plain l Hl) as [_ ->].
    cbn [map spread_bytes]. rewrite parseInt16_pair by assumption.
    rewrite to_N_byte_of_N by (apply hex_pair_below_256; assumption).
    f_equal. apply IH; [cbn in Hlen; lia | assumption].
Qed.

Lemma even_length_half (s : jsstring) :
  (length s mod 2 = 0)%nat -> exists n, length s = (2 * n)%nat.
Proof.
  intros H. exists (length s / 2)%nat.
  pose proof (Nat.div_mod_eq (length s) 2). lia.
Qed.

Lemma length_hex_pair_bytes (n : nat) : forall s : jsstring,
  length s = (2 * n)%nat -> length (hex_pair_bytes s) = n.
Proof.
  induction n as [|n IH]; intros s Hlen.
  - destruct s; [reflexivity|discriminate].
  - destruct s as [|h [|l rest]]; try (cbn in Hlen; lia).
    cbn [hex_pair_bytes length]. f_equal. apply IH. cbn in Hlen. lia.
Qed.

Lemma pairs_beyond (max_arguments : N) (s : jsstring) :
  (length s mod 2 = 0)%nat ->
  2 * max_arguments < N.of_nat (length s) ->
  max_arguments < N.of_nat (length (hex_pair_bytes s)).
Proof.
  intros Heven Hbeyond. destruct (even_length_half s Heven) as [n Hn].
  rewrite (length_hex_pair_bytes n s Hn). lia.
Qed.

Lemma encodeBinary_beyond max_arguments bs :
  max_arguments < N.of_nat (length bs) ->
  encodeBinary max_arguments (spread_bytes bs) = Throw (RangeError rangeError_message).
Proof.
  intros H. rewrite encodeBinary_bytes.
  destruct (N.leb_spec (N.of_nat (length bs)) max_arguments); [lia|reflexivity].
Qed.

Lemma pairs_within (max_arguments : N) (s : jsstring) :
  (length s mod 2 = 0)%nat ->
  N.of_nat (length s) <= 2 * max_arguments ->
  N.of_nat (length (hex_pair_bytes s)) <= max_arguments.
Proof.
  intros Heven Hfits. destruct (even_length_half s Heven) as [n Hn].
  rewrite (length_hex_pair_bytes n s Hn). lia.
Qed.

(** In hex mode, an input made of an even, non-zero number of hex digits
    goes to the encoding step as the bytes its digit pairs write. *)
Lemma encodeWritePayload_hex (max_arguments : N) (st : UiState) :
  writeMode st = hex ->
  Forall (fun c => is_hex_digit c = true) (writeValue st) ->
  (length (writeValue st) mod 2 = 0)%nat ->
  writeValue st <> [] ->
  encodeWritePayload max_arguments st
  = encodeBinary max_arguments (spread_bytes (hex_pair_bytes (writeValue st))).
Proof.
  intros Hmode Hhex Heven Hdata. unfold encodeWritePayload.
  rewrite trim_hex by assumption. rewrite truthy_nonempty by assumption.
  rewrite Hmode. cbn [negb]. rewrite strip_non_hex_id by assumption.
  rewrite Heven.
  destruct (even_length_half _ Heven) as [n Hn].
  unfold match_dot_1_2.
  pose proof (parse_pairs n _ Hn Hhex) as Hparse.
  destruct (writeValue st) as [|h [|l rest]] eqn:E;
    [contradiction | discriminate Heven |].
  inversion_clear Hhex as [|? ? Hh Hhex']. inversion_clear Hhex' as [|? ? Hl Hrest].
  cbn [length Nat.eqb orb negb].
  revert Hparse. cbn [dot_chunks].
  destruct (hex_digit_plain h Hh) as [_ ->].
  destruct (hex_digit_plain l Hl) as [_ ->].
  intros Hparse. cbn [fmap option_fmap option_map].
  change (map parseInt16 ([h; l] :: dot_chunks rest))
    with (parseInt16 [h; l] :: map parseInt16 (dot_chunks rest)) in *.
  cbn [map]. rewrite Hparse. reflexivity.
Qed.

(** C5.  For every input of hex digits only and of even length in hex
    mode, a payload that is produced base64-decodes to the bytes written by
    the consecutive digit pairs.  One is produced unless the input is
    empty or has more digit pairs than the engine accepts as arguments of
    one call; with more, the encoding throws a [RangeError].  The scenario
    of the input [a1], which gives the single byte 0xA1, is the instance
    [hex_payload_a1] below. *)
Theorem hex_payload_decodes (max_arguments : N) (st : UiState) :
  writeMode st = hex ->
  Forall (fun c => is_hex_digit c = true) (writeValue st) ->
  (length (writeValue st) mod 2 = 0)%nat ->
  (forall payload,
      encodeWritePayload max_arguments st = Ok payload ->
      decodeBytes payload = Ok (hex_pair_bytes (writeValue st)))
  /\ (writeValue st <> [] ->
      N.of_nat (length (writeValue st)) <= 2 * max_arguments ->
      exists payload, encodeWritePayload max_arguments st = Ok payload)
  /\ (2 * max_arguments < N.of_nat (length (writeValue st)) ->
      encodeWritePayload max_arguments st = Throw (RangeError rangeError_message)).
Proof.
  intros Hmode Hhex Heven.
  destruct (decide (writeValue st = [])) as [Hempty|Hdata].
  - split; [|split]; [| contradiction | rewrite Hempty; cbn; lia].
    intros payload. unfold encodeWritePayload. rewrite Hempty. discriminate.
  - rewrite (encodeWritePayload_hex max_arguments st Hmode Hhex Heven Hdata).
    split; [|split].
    + intros payload H. apply encodeBinary_Ok in H. subst payload.
      apply decodeBytes_encode.
    + intros _ Hfits. eexists. apply encodeBinary_within.
      apply pairs_within; assumption.
    + intros Hbeyond. apply encodeBinary_beyond, pairs_beyond; assumption.
Qed.

Lemma hex_payload_a1 :
  (forall payload,
      encodeWritePayload sample_max_arguments (set_write (js "a1") hex initial)
      = Ok payload ->
      decodeBytes payload = Ok [xa1])
  /\ exists payload,
       encodeWritePayload sample_max_arguments (set_write (js "a1") hex initial)
       = Ok payload.
Proof.
  destruct (hex_payload_decodes sample_max_arguments
              (set_write (js "a1") hex initial)) as (Hdecodes & Hproduced & _).
  - reflexivity.
  - vm_compute. repeat (apply List.Forall_cons; [reflexivity|]). apply List.Forall_nil.
  - reflexivity.
  - split; [exact Hdecodes|]. apply Hproduced.
    + discriminate.
    + vm_compute. discriminate.
Defined.

(** The whole write path in hex mode: a non-empty byte sequence written as
    its hex digits is encoded to a payload that decodes to the same bytes. *)
Lemma hex_value_digit d : d < 16 -> hex_value (hex_digit d) = Some d.
Proof.
  intros Hd. unfold hex_digit. destruct (N.ltb_spec d 10);
    unfold hex_value; N_cases; try lia; f_equal; lia.
Qed.

Lemma byte_hex_digits b :
  Forall (fun c => is_hex_digit c = true) (byte_hex b)
  /\ hex_pair_bytes (byte_hex b) = [b].
Proof.
  pose proof (to_N_lt b) as Hb. unfold byte_hex. cbv zeta.
  assert (Hhi : Byte.to_N b / 16 < 16) by div_mod_lia.
  assert (Hlo : Byte.to_N b mod 16 < 16) by div_mod_lia.
  split.
  - repeat (apply List.Forall_cons;
            [unfold is_hex_digit; rewrite hex_value_digit by assumption; reflexivity|]).
    apply List.Forall_nil.
  - cbn [hex_pair_bytes]. rewrite !hex_value_digit by assumption.
    cbn [default from_option]. unfold Datatypes.id.
    f_equal. rewrite <- (byte_of_to_N b) at 3. f_equal. div_mod_lia.
Qed.

Lemma hex_of_bytes (bs : list byte) :
  Forall (fun c => is_hex_digit c = true) (concat (map byte_hex bs))
  /\ (length (concat (map byte_hex bs)) mod 2 = 0)%nat
  /\ hex_pair_bytes (concat (map byte_hex bs)) = bs.
Proof.
  induction bs as [|b bs (IH1 & IH2 & IH3)].
  - split; [apply List.Forall_nil|]. split; reflexivity.
  - destruct (byte_hex_digits b) as [Hd Hp].
    change (concat (map byte_hex (b :: bs)))
      with ([hex_digit (Byte.to_N b / 16); hex_digit (Byte.to_N b mod 16)]
            ++ concat (map byte_hex bs)) in *.
    split; [|split].
    + apply Forall_app. split; assumption.
    + cbn [app length]. rewrite <- IH2 at 2.
      change (S (S ?n)) with (2 + n)%nat.
      rewrite <- (Nat.Div0.add_mod_idemp_l 2), Nat.Div0.mod_same. reflexivity.
    + cbn [app hex_pair_bytes]. unfold byte_hex in Hp. cbv zeta in Hp.
      cbn [hex_pair_bytes] in Hp. injection Hp as Hp. rewrite Hp, IH3.
      reflexivity.
Qed.








(** ** The invocation layer *)

(** C6.  For every command name [c] and payload [p], [call] suspends on
    exactly one invocation, of the command [plugin:web-bluetooth|c] with
    the payload [p] unchanged, or with the empty object when the payload is
    left out; the answer, result or rejection, is handed back as it is. *)
Theorem call_sends_namespaced_command {S : Type} (t : ResponseType)
    (c : jsstring) (p : Json) (s : S) :
  Guest.call t c (Some p) s
  = Awaiting t (js "plugin:web-bluetooth" ++ js "|" ++ c) p s
      (fun r s' => Finished r s')
  /\ Guest.call t c None s
     = Awaiting t (js "plugin:web-bluetooth" ++ js "|" ++ c) (JObj []) s
         (fun r s' => Finished r s').
Proof. split; reflexivity. Qed.

(** C10.  For every string [v], [ping v] invokes [plugin:web-bluetooth|ping]
    with the payload [{payload: {value: v}}]; resumed with a response it
    returns the response's [value] when there is one and [null] when there
    is none, and it fails only as the invocation fails. *)
Theorem ping_returns_value_or_null {S : Type} (v : jsstring) (s : S) :
  exists resume,
    Guest.ping v s
    = Awaiting TPing (js "plugin:web-bluetooth|ping")
        (JObj [(js "payload", JObj [(js "value", JStr v)])]) s resume
    /\ (forall x s', resume (Ok {| ping_value := Some x |}) s'
                     = Finished (Ok (Value x)) s')
    /\ (forall s', resume (Ok {| ping_value := None |}) s' = Finished (Ok Null) s')
    /\ (forall e s', resume (Throw e) s' = Finished (Throw e) s').
Proof. eexists. repeat split. Qed.

(** C1, as the code has it.  [requestDevice] checks nothing: for every
    options value it invokes [plugin:web-bluetooth|request_device] with
    [{options}] and hands back the answer.  The guard is in the playground:
    when [Accept all devices] is off and no filter detail is filled in,
    [requestNewDevice] throws an [Error] before any invocation, and leaves
    the state as it was. *)
Theorem requestNewDevice_guard (st : UiState) :
  acceptAllDevices st = false ->
  hasFilterDetails st = false ->
  requestNewDevice st = Finished (Throw (Error no_filter_message)) st
  /\ forall options : RequestDeviceOptions,
       Guest.requestDevice options st
       = Awaiting TDevice (js "plugin:web-bluetooth|request_device")
           (JObj [(js "options", json_of_options options)]) st
           (fun r s' => Finished r s').
Proof.
  intros Haccept Hfilters. split; [|reflexivity].
  unfold requestNewDevice, bind, get. cbn [step_bind].
  unfold request_filters. rewrite Haccept, Hfilters. reflexivity.
Qed.

Lemma requestNewDevice_guard_witness :
  requestNewDevice no_filter_state
  = Finished (Throw (Error no_filter_message)) no_filter_state
  /\ forall options : RequestDeviceOptions,
       Guest.requestDevice options no_filter_state
       = Awaiting TDevice (js "plugin:web-bluetooth|request_device")
           (JObj [(js "options", json_of_options options)]) no_filter_state
           (fun r s' => Finished r s').
Proof.
  apply (requestNewDevice_guard no_filter_state); reflexivity.
Defined.

(** C1 as stated fails: with [acceptAllDevices] false and an empty
    [filters] sequence, [requestDevice] does not fail; it reaches the
    invocation of the host, and against a host that accepts it returns the
    device the host answers with. *)
Lemma requestDevice_unchecked_counterexample :
  (forall e,
      Guest.requestDevice unfiltered_options initial <> Finished (Throw e) initial)
  /\ (run_step accepting_host (Guest.requestDevice unfiltered_options initial) tt).1.1
     = Ok (empty_response TDevice).
Proof. split; [intros e; discriminate | reflexivity]. Qed.

(** ** The device cache mirror *)

Lemma log_devices label payload intent st :
  devices (log label payload intent st) = devices st.
Proof. reflexivity. Qed.

Lemma log_activeDeviceId label payload intent st :
  activeDeviceId (log label payload intent st) = activeDeviceId st.
Proof. reflexivity. Qed.

Lemma log_subscribedKeys label payload intent st :
  subscribedKeys (log label payload intent st) = subscribedKeys st.
Proof. reflexivity. Qed.

Lemma store_devices_devices result st : devices (store_devices result st) = result.
Proof.
  unfold store_devices. rewrite log_devices.
  destruct (selected (set_devices result st)) as [active|]; [|reflexivity].
  destruct (negb _); reflexivity.
Qed.

Lemma existsb_id_false (result : list BluetoothDevice) (active : jsstring) :
  ~ In active (map id result) ->
  existsb (fun device => str_eqb (id device) active) result = false.
Proof.
  intros Hnot. apply not_true_is_false. intros Hex.
  apply existsb_exists in Hex as (d & Hd & Heq).
  apply bool_decide_eq_true in Heq. apply Hnot.
  apply in_map_iff. exists d. split; assumption.
Qed.

(** C8.  [refreshDevices] invokes [get_devices]; for every response [r],
    whatever the state is when the response arrives, the device list
    becomes exactly [r], nothing of the list before is kept, and a
    selection whose id does not occur in [r] is cleared. *)
Theorem refreshDevices_replaces_cache (st : UiState) :
  exists resume,
    refreshDevices st
    = Awaiting TDevices (js "plugin:web-bluetooth|get_devices") (JObj []) st resume
    /\ forall (r : list BluetoothDevice) (st' : UiState),
         exists st'',
           resume (Ok r) st' = Finished (Ok tt) st''
           /\ devices st'' = r
           /\ (forall active,
                  selected st' = Some active ->
                  ~ In active (map id r) ->
                  activeDeviceId st'' = None /\ selected st'' = None).
Proof.
  eexists. split; [reflexivity|].
  intros r st'. exists (store_devices r st').
  split; [reflexivity|]. split; [apply store_devices_devices|].
  intros active Hactive Hnot.
  assert (Hcleared : activeDeviceId (store_devices r st') = None).
  { unfold store_devices. rewrite log_activeDeviceId.
    change (selected (set_devices r st')) with (selected st'). rewrite Hactive.
    rewrite existsb_id_false by assumption. reflexivity. }
  split; [exact Hcleared|]. unfold selected. rewrite Hcleared. reflexivity.
Qed.

Lemma refreshDevices_replaces_cache_witness :
  let before := selectDevice device_A initial in
  let after := (run_step (host_with_devices [device_B])
                  (refreshDevices before) tt).1.2 in
  selected before = Some (js "A")
  /\ devices after = [device_B]
  /\ activeDeviceId after = None.
Proof.
  cbv zeta. split; [reflexivity|].
  destruct (refreshDevices_replaces_cache (selectDevice device_A initial))
    as (resume & Heq & Hresume).
  rewrite Heq. cbn [run_step host_with_devices answer].
  destruct (Hresume [device_B] (selectDevice device_A initial))
    as (st'' & Hfinished & Hdevices & Hcleared).
  rewrite Hfinished. cbn [run_step fst snd]. split; [exact Hdevices|].
  apply (Hcleared (js "A")); [reflexivity|].
  intros [H|[]]. discriminate H.
Defined.

(** ** Subscriptions *)

Lemma includes_app_self keys (key : jsstring) : includes (keys ++ [key]) key = true.
Proof.
  unfold includes. rewrite existsb_app. cbn. unfold str_eqb.
  rewrite bool_decide_eq_true_2 by reflexivity. apply orb_true_r.
Qed.

Lemma includes_In keys (key : jsstring) : includes keys key = true <-> In key keys.
Proof.
  unfold includes. rewrite existsb_exists. split.
  - intros (k & Hk & Heq). apply bool_decide_eq_true in Heq. subst. exact Hk.
  - intros H. exists key. split; [exact H|]. apply bool_decide_eq_true. reflexivity.
Qed.

Lemma subscribe_keys d st :
  subscribedKeys (subscribe d st)
  = let key := subKey d (workingServiceUuid st) (workingCharacteristicUuid st) in
    if includes (subscribedKeys st) key then subscribedKeys st
    else subscribedKeys st ++ [key].
Proof.
  unfold subscribe. rewrite log_subscribedKeys. cbv zeta.
  destruct (includes _ _); reflexivity.
Qed.

Lemma subscribe_selection d st :
  activeDeviceId (subscribe d st) = activeDeviceId st
  /\ workingServiceUuid (subscribe d st) = workingServiceUuid st
  /\ workingCharacteristicUuid (subscribe d st) = workingCharacteristicUuid st.
Proof.
  unfold subscribe. cbv zeta. destruct (negb _); repeat split.
Qed.

Lemma subscribe_twice d st :
  subscribedKeys (subscribe d (subscribe d st)) = subscribedKeys (subscribe d st).
Proof.
  rewrite (subscribe_keys d (subscribe d st)). cbv zeta.
  destruct (subscribe_selection d st) as (_ & -> & ->).
  rewrite subscribe_keys. cbv zeta.
  destruct (includes (subscribedKeys st) _) eqn:E.
  - rewrite E. reflexivity.
  - rewrite includes_app_self. reflexivity.
Qed.

Lemma subscribe_NoDup d st :
  List.NoDup (subscribedKeys st) -> List.NoDup (subscribedKeys (subscribe d st)).
Proof.
  intros H. rewrite subscribe_keys. cbv zeta.
  destruct (includes (subscribedKeys st) _) eqn:E; [exact H|].
  apply List.NoDup_rev in H. rewrite <- (rev_involutive (_ ++ _)).
  apply List.NoDup_rev. rewrite rev_app_distr. cbn.
  apply List.NoDup_cons; [|exact H].
  rewrite <- in_rev. intros Hin. apply includes_In in Hin. congruence.
Qed.

Lemma unsubscribe_absent d st :
  includes (subscribedKeys st)
    (subKey d (workingServiceUuid st) (workingCharacteristicUuid st)) = false ->
  subscribedKeys (unsubscribe d st) = subscribedKeys st.
Proof.
  intros Habsent. unfold unsubscribe. rewrite log_subscribedKeys.
  cbn [subscribedKeys set_subscribedKeys].
  set (key := subKey _ _ _) in *.
  assert (Hnot : ~ In key (subscribedKeys st)).
  { intros Hin. apply includes_In in Hin. congruence. }
  clear Habsent. induction (subscribedKeys st) as [|k keys IH]; [reflexivity|].
  cbn. unfold str_eqb at 1.
  rewrite bool_decide_eq_false_2 by (intros ->; apply Hnot; left; reflexivity).
  cbn. f_equal. apply IH. intros Hin. apply Hnot. right. exact Hin.
Qed.

(** One sequential run of [startNotify]: it throws before any invocation
    without a selection, and subscribes once the host has accepted. *)
Lemma run_startNotify (h : Host) (b : host_state h) (st : UiState) :
  let '(o, st', _) := run_step h (startNotify st) b in
  (o = Ok tt /\ exists d, selected st = Some d /\ st' = subscribe d st)
  \/ ((exists e, o = Throw e) /\ st' = st).
Proof.
  unfold startNotify, bind, ensureDevice.
  destruct (selected st) as [d|] eqn:Hsel; cbn [step_bind get].
  2: { right. split; [eexists|]; reflexivity. }
  destruct (negb (truthy (workingServiceUuid st))
            || negb (truthy (workingCharacteristicUuid st))); cbn.
  { right. split; [eexists|]; reflexivity. }
  destruct (answer h TUnknown _ _ b) as [[v|e] b']; cbn.
  - left. split; [reflexivity|]. exists d. split; reflexivity.
  - right. split; [eexists|]; reflexivity.
Qed.

(** One sequential run of [stopNotify]. *)
Lemma run_stopNotify (h : Host) (b : host_state h) (st : UiState) :
  let '(o, st', _) := run_step h (stopNotify st) b in
  (o = Ok tt /\ exists d, selected st = Some d
     /\ truthy (workingServiceUuid st) = true
     /\ truthy (workingCharacteristicUuid st) = true
     /\ st' = unsubscribe d st)
  \/ ((exists e, o = Throw e) /\ st' = st).
Proof.
  unfold stopNotify, bind, ensureDevice.
  destruct (selected st) as [d|] eqn:Hsel; cbn [step_bind get].
  2: { right. split; [eexists|]; reflexivity. }
  destruct (truthy (workingServiceUuid st)); cbn.
  2: { right. split; [eexists|]; reflexivity. }
  destruct (truthy (workingCharacteristicUuid st)); cbn.
  2: { right. split; [eexists|]; reflexivity. }
  destruct (answer h TUnknown _ _ b) as [[v|e] b']; cbn.
  - left. split; [reflexivity|]. exists d. repeat split.
  - right. split; [eexists|]; reflexivity.
Qed.

(** C9.  On the subscribed keys, starting is idempotent and stopping an
    inactive subscription changes nothing.  Against any host: when a run of
    [startNotify] has succeeded, a second run leaves the list of keys as
    the first left it, and a list without duplicates stays without
    duplicates; when the selected characteristic is not subscribed, a run
    of [stopNotify] leaves the list of keys as it was. *)
Theorem notify_idempotent (h : Host) (b : host_state h) (st : UiState) :
  (forall st1 b1,
      run_step h (startNotify st) b = (Ok tt, st1, b1) ->
      subscribedKeys (run_step h (startNotify st1) b1).1.2 = subscribedKeys st1
      /\ (List.NoDup (subscribedKeys st) -> List.NoDup (subscribedKeys st1)))
  /\ (isSubscribed st = false ->
      subscribedKeys (run_step h (stopNotify st) b).1.2 = subscribedKeys st).
Proof.
  split.
  - intros st1 b1 Hrun.
    pose proof (run_startNotify h b st) as H1. rewrite Hrun in H1.
    destruct H1 as [(_ & d & Hsel & ->) | ((e & He) & _)]; [|discriminate He].
    split; [|apply subscribe_NoDup].
    pose proof (run_startNotify h b1 (subscribe d st)) as H2.
    destruct (run_step h (startNotify (subscribe d st)) b1) as [[o2 st2] b2].
    cbn [fst snd].
    destruct H2 as [(_ & d' & Hsel' & ->) | (_ & ->)]; [|reflexivity].
    assert (d' = d) as ->.
    { unfold selected in Hsel, Hsel'.
      destruct (subscribe_selection d st) as (Ha & _). rewrite Ha in Hsel'.
      congruence. }
    apply subscribe_twice.
  - intros Hinactive.
    pose proof (run_stopNotify h b st) as H1.
    destruct (run_step h (stopNotify st) b) as [[o1 st1] b1]. cbn [fst snd].
    destruct H1 as [(_ & d & Hsel & Hs & Hc & ->) | (_ & ->)]; [|reflexivity].
    apply unsubscribe_absent.
    unfold isSubscribed in Hinactive. rewrite Hsel, Hs, Hc in Hinactive.
    exact Hinactive.
Qed.

Lemma notify_idempotent_witness :
  let st1 := (run_step accepting_host (startNotify on_A) tt).1.2 in
  subscribedKeys st1 = [js "A|180d|2a37"]
  /\ subscribedKeys (run_step accepting_host (startNotify st1) tt).1.2
     = [js "A|180d|2a37"]
  /\ subscribedKeys (run_step accepting_host (stopNotify on_A) tt).1.2 = [].
Proof.
  cbv zeta.
  destruct (notify_idempotent accepting_host tt on_A) as [Hstart Hstop].
  split; [reflexivity|]. split.
  - exact (proj1 (Hstart _ tt eq_refl)).
  - exact (Hstop eq_refl).
Defined.







(** * Further properties *)

Import Actions.

(** ** Trimming and list inputs *)

Lemma trimStart_head (s : jsstring) c t :
  trimStart s = c :: t -> is_js_space c = false.
Proof.
  induction s as [|x s IH]; [discriminate|].
  cbn. destruct (is_js_space x) eqn:E; [exact IH|].
  intros [= <- _]. exact E.
Qed.

Lemma trimStart_suffix (s : jsstring) :
  exists p, s = p ++ trimStart s /\ Forall (fun c => is_js_space c = true) p.
Proof.
  induction s as [|x s (p & Hp & Hsp)].
  - exists []. split; [reflexivity | apply List.Forall_nil].
  - cbn. destruct (is_js_space x) eqn:E.
    + exists (x :: p). split; [cbn; f_equal; exact Hp|].
      apply List.Forall_cons; assumption.
    + exists []. split; [reflexivity | apply List.Forall_nil].
Qed.

Lemma trimEnd_prefix (s : jsstring) :
  exists q, s = trimEnd s ++ q /\ Forall (fun c => is_js_space c = true) q.
Proof.
  unfold trimEnd. destruct (trimStart_suffix (rev s)) as (p & Hp & Hsp).
  exists (rev p). split.
  - rewrite <- rev_app_distr, <- Hp. symmetry. apply rev_involutive.
  - apply List.Forall_rev. exact Hsp.
Qed.

Lemma trimEnd_last (s t : jsstring) c :
  trimEnd s = t ++ [c] -> is_js_space c = false.
Proof.
  unfold trimEnd. intros H.
  apply (f_equal (@rev N)) in H. rewrite rev_involutive, rev_app_distr in H.
  cbn in H. eapply trimStart_head. exact H.
Qed.

Lemma trim_head (s : jsstring) c t : trim s = c :: t -> is_js_space c = false.
Proof.
  unfold trim. intros H.
  destruct (trimEnd_prefix (trimStart s)) as (q & Hq & _).
  rewrite H in Hq. cbn in Hq.
  eapply trimStart_head. exact Hq.
Qed.

Lemma trimStart_fixed (s : jsstring) :
  (forall c t, s = c :: t -> is_js_space c = false) -> trimStart s = s.
Proof.
  destruct s as [|c t]; [reflexivity|].
  intros H. cbn. rewrite (H c t eq_refl). reflexivity.
Qed.

Lemma trimEnd_fixed (s : jsstring) :
  (forall t c, s = t ++ [c] -> is_js_space c = false) -> trimEnd s = s.
Proof.
  intros H. unfold trimEnd. rewrite trimStart_fixed; [apply rev_involutive|].
  intros c t Hrev. apply (H (rev t) c).
  rewrite <- (rev_involutive s), Hrev. reflexivity.
Qed.

(** [trim] leaves no white space at either end, and trimming twice is
    trimming once. *)
Lemma trim_clean (s : jsstring) :
  (forall c t, trim s = c :: t -> is_js_space c = false)
  /\ (forall t c, trim s = t ++ [c] -> is_js_space c = false)
  /\ trim (trim s) = trim s.
Proof.
  assert (Hhead := trim_head s).
  assert (Hlast : forall t c, trim s = t ++ [c] -> is_js_space c = false).
  { intros t c. unfold trim. apply trimEnd_last. }
  repeat split; try assumption.
  unfold trim at 1. rewrite (trimStart_fixed (trim s)) by assumption.
  apply trimEnd_fixed. assumption.
Qed.

Lemma trim_sublist (s : jsstring) : exists p q, s = p ++ trim s ++ q.
Proof.
  destruct (trimStart_suffix s) as (p & Hp & _).
  destruct (trimEnd_prefix (trimStart s)) as (q & Hq & _).
  exists p, q. unfold trim. rewrite <- Hq. exact Hp.
Qed.

Lemma split_comma_no_comma (s : jsstring) :
  Forall (fun piece => ~ In 44 piece) (split_comma s).
Proof.
  induction s as [|c s IH]; cbn.
  - apply List.Forall_cons; [intros [] | apply List.Forall_nil].
  - destruct (N.eqb_spec c 44) as [->|Hc].
    + apply List.Forall_cons; [intros [] | exact IH].
    + destruct (split_comma s) as [|piece pieces]; cbn.
      * apply List.Forall_cons; [|apply List.Forall_nil].
        intros [E|[]]. congruence.
      * inversion_clear IH as [|? ? Hpiece Hpieces].
        apply List.Forall_cons; [|exact Hpieces].
        intros [E|Hin]; [congruence | exact (Hpiece Hin)].
Qed.

(** X1.  Every item [parseList] returns is non-empty, has no white space
    at either end and contains no comma. *)
Theorem parseList_items (value : jsstring) :
  Forall (fun item : jsstring =>
            item <> [] /\ trim item = item /\ ~ In 44 item)
    (parseList value).
Proof.
  unfold parseList. apply (proj2 (List.Forall_forall _ _)).
  intros item Hin. apply filter_In in Hin as [Hin Htruthy].
  apply in_map_iff in Hin as (piece & <- & Hpiece).
  split; [|split].
  - intros E. rewrite E in Htruthy. discriminate Htruthy.
  - apply trim_clean.
  - intros H44.
    pose proof (split_comma_no_comma value) as Hall.
    rewrite List.Forall_forall in Hall. apply (Hall piece Hpiece).
    destruct (trim_sublist piece) as (p & q & ->).
    apply in_or_app. right. apply in_or_app. left. exact H44.
Qed.

(** ** The log *)

Lemma StronglySorted_take {A} (R : A -> A -> Prop) n (l : list A) :
  StronglySorted R l -> StronglySorted R (take n l).
Proof.
  intros H. revert n. induction H as [|x l Hl IH Hx]; intros [|n]; cbn;
    try apply SSorted_nil.
  apply SSorted_cons; [apply IH|]. apply Forall_take. exact Hx.
Qed.

Lemma increment_below (n : Z) : (n < 2 ^ 53)%Z -> increment n = (n + 1)%Z.
Proof. intros H. unfold increment. destruct (Z.ltb_spec n (2 ^ 53)); [reflexivity|lia]. Qed.

Lemma increment_at_limit (n : Z) : (2 ^ 53 <= n)%Z -> increment n = n.
Proof. intros H. unfold increment. destruct (Z.ltb_spec n (2 ^ 53)); [lia|reflexivity]. Qed.

Lemma log_counter label payload intent st :
  logCounter (log label payload intent st) = increment (logCounter st).
Proof. reflexivity. Qed.

Lemma log_keeps_ok label payload intent st :
  (logCounter st < 2 ^ 53)%Z -> log_ok st -> log_ok (log label payload intent st).
Proof.
  intros Hbelow (Hlen & Hsorted & Hbound). unfold log_ok, log.
  cbn [logEntries logCounter set_log]. rewrite (increment_below _ Hbelow).
  split; [|split].
  - rewrite length_take. lia.
  - apply StronglySorted_take. apply SSorted_cons; [exact Hsorted|].
    eapply Forall_impl; [exact Hbound|]. cbn. intros e He. lia.
  - apply Forall_take. apply List.Forall_cons; [cbn; lia|].
    eapply Forall_impl; [exact Hbound|]. cbn. intros e He. lia.
Qed.

Lemma log_ok_same_log st st' :
  logEntries st' = logEntries st -> logCounter st' = logCounter st ->
  log_ok st -> log_ok st'.
Proof. unfold log_ok. intros -> ->. exact (fun H => H). Qed.

Lemma sorted_ids_NoDup (entries : list ActivityLog) :
  StronglySorted (fun a b => (log_id a > log_id b)%Z) entries ->
  List.NoDup (map log_id entries).
Proof.
  induction 1 as [|e entries _ IH He]; cbn; [apply List.NoDup_nil|].
  apply List.NoDup_cons; [|exact IH].
  intros Hin. apply in_map_iff in Hin as (e' & Heq & Hin).
  rewrite List.Forall_forall in He. specialize (He e' Hin). lia.
Qed.

Lemma decodeValue_keeps_ok v st :
  (logCounter st < 2 ^ 53)%Z -> log_ok st -> log_ok (decodeValue v st).2.
Proof.
  intros Hbelow H. unfold decodeValue. destruct (decodeBytes v); cbn [snd];
    [exact H | apply log_keeps_ok; assumption].
Qed.

Lemma decodeValue_counter v st :
  logCounter (decodeValue v st).2 = logCounter st
  \/ logCounter (decodeValue v st).2 = increment (logCounter st).
Proof.
  unfold decodeValue. destruct (decodeBytes v); cbn [snd];
    [left; reflexivity | right; apply log_counter].
Qed.

(** X2.  The log and its counter, a double that [++] raises by one below
    2^53 and leaves as it is from there on.  [log] puts the new entry at
    the head with the counter after [++] as its id.  Below 2^53, when the
    log is in order, the id is fresh, at most 200 entries are kept, all ids
    are distinct, and every function of the component that writes to the
    log leaves it in order; [handleNotification], which may write two
    entries, needs the counter below 2^53 - 1.  From 2^53 on the counter
    stays, and the new entry repeats the id of the entry before it when
    that entry carries the counter. *)
Theorem log_stays_ok (st : UiState) :
  log_ok st ->
  (forall label payload intent,
      let st' := log label payload intent st in
      logCounter st' = increment (logCounter st)
      /\ head (logEntries st')
         = Some {| log_id := logCounter st'; label := label; intent := intent;
                   log_payload := payload |}
      /\ ((logCounter st < 2 ^ 53)%Z ->
          log_ok st'
          /\ logCounter st' = (logCounter st + 1)%Z
          /\ List.NoDup (map log_id (logEntries st')))
      /\ ((2 ^ 53 <= logCounter st)%Z ->
          logCounter st' = logCounter st
          /\ forall e, head (logEntries st) = Some e ->
                       log_id e = logCounter st ->
                       ~ List.NoDup (map log_id (logEntries st'))))
  /\ ((logCounter st < 2 ^ 53)%Z ->
      (forall device, log_ok (selectDevice device st))
      /\ (forall result, log_ok (store_devices result st))
      /\ (forall d, log_ok (subscribe d st) /\ log_ok (unsubscribe d st))
      /\ (forall payload, log_ok (handleDisconnectEvent payload st))
      /\ (forall v, log_ok (decodeValue v st).2))
  /\ ((logCounter st < 2 ^ 53 - 1)%Z ->
      forall payload, log_ok (handleNotification payload st)).
Proof.
  intros Hok.
  refine (conj _ (conj _ _)).
  - intros label payload intent. cbv zeta.
    split; [reflexivity|]. split; [reflexivity|]. split.
    + intros Hbelow.
      pose proof (log_keeps_ok label payload intent st Hbelow Hok) as H.
      split; [exact H|]. split; [rewrite log_counter; apply increment_below, Hbelow|].
      apply sorted_ids_NoDup. apply H.
    + intros Hlimit. split; [rewrite log_counter; apply increment_at_limit, Hlimit|].
      intros e He Hid Hnodup. unfold log in Hnodup.
      cbn [logEntries set_log] in Hnodup.
      rewrite (increment_at_limit _ Hlimit) in Hnodup.
      destruct (logEntries st) as [|e' rest]; [discriminate He|].
      injection He as ->.
      change (take 200 (?x :: e :: rest)) with (x :: e :: take 198 rest) in Hnodup.
      cbn [map log_id] in Hnodup. rewrite Hid in Hnodup.
      apply List.NoDup_cons_iff in Hnodup as [Hin _]. apply Hin. left. reflexivity.
  - intros Hbelow.
    refine (conj _ (conj _ (conj _ (conj _ _)))).
    + intros device. apply log_keeps_ok; [exact Hbelow|]. revert Hok.
      apply log_ok_same_log; reflexivity.
    + intros result. unfold store_devices.
      destruct (selected _); [destruct (negb _)|];
        (apply log_keeps_ok; [exact Hbelow|]); revert Hok;
        apply log_ok_same_log; reflexivity.
    + intros d. split.
      * unfold subscribe.
        destruct (negb _); (apply log_keeps_ok; [exact Hbelow|]); revert Hok;
          apply log_ok_same_log; reflexivity.
      * unfold unsubscribe. apply log_keeps_ok; [exact Hbelow|].
        revert Hok. apply log_ok_same_log; reflexivity.
    + intros payload. unfold handleDisconnectEvent.
      pose proof (log_keeps_ok (js "event gattserver_disconnected")
                    (Some (json_of_device_event payload)) event st Hbelow Hok) as H1.
      destruct (bool_decide _); [|exact H1].
      revert H1. apply log_ok_same_log; reflexivity.
    + intros v. apply decodeValue_keeps_ok; assumption.
  - intros Hbelow payload. unfold handleNotification.
    assert (Hbelow' : (logCounter st < 2 ^ 53)%Z) by lia.
    pose proof (decodeValue_keeps_ok (event_value payload) st Hbelow' Hok) as H1.
    pose proof (decodeValue_counter (event_value payload) st) as Hcounter.
    rewrite (increment_below _ Hbelow') in Hcounter.
    destruct (decodeValue (event_value payload) st) as [decoded st1].
    cbn [snd] in H1, Hcounter.
    apply log_keeps_ok; [lia | exact H1].
Qed.

Lemma log_stays_ok_witness :
  (let st' := log (js "Read value") None info logged_twice in
   log_ok st'
   /\ logCounter st' = 3%Z
   /\ map log_id (logEntries st') = [3; 2; 1]%Z)
  /\ log_ok (handleNotification
               {| event_deviceId := js "A"; event_serviceUuid := js "180d";
                  event_characteristicUuid := js "2a37"; event_value := js "!" |}
               logged_twice)
  /\ (let st' := log (js "Read value") None info saturated in
      logCounter st' = logCounter saturated
      /\ ~ List.NoDup (map log_id (logEntries st'))).
Proof.
  assert (H : log_ok logged_twice).
  { unfold log_ok.
    change (logEntries logged_twice)
      with [ {| log_id := 2; label := js "Devices refreshed"; intent := info;
                log_payload := None |};
             {| log_id := 1; label := js "Example UI ready"; intent := info;
                log_payload := None |} ].
    change (logCounter logged_twice) with 2%Z.
    split; [cbn; lia|]. split.
    - repeat (first [apply SSorted_cons | apply SSorted_nil
                    | apply List.Forall_cons | apply List.Forall_nil]); cbn; lia.
    - repeat (first [apply List.Forall_cons | apply List.Forall_nil]); cbn; lia. }
  assert (H' : log_ok saturated).
  { unfold log_ok, saturated. cbn [logEntries logCounter set_log].
    split; [cbn; lia|]. split.
    - repeat (first [apply SSorted_cons | apply SSorted_nil
                    | apply List.Forall_cons | apply List.Forall_nil]).
    - repeat (first [apply List.Forall_cons | apply List.Forall_nil]); cbn; lia. }
  destruct (log_stays_ok logged_twice H) as (Hlog & _ & Hnote).
  destruct (log_stays_ok saturated H') as (Hsat & _).
  split; [|split].
  - cbv zeta.
    destruct (Hlog (js "Read value") None info) as (_ & _ & Hbelow & _).
    destruct Hbelow as (Hok & _ & _); [vm_compute; reflexivity|].
    split; [exact Hok|]. split; reflexivity.
  - apply Hnote. vm_compute. reflexivity.
  - cbv zeta.
    destruct (Hsat (js "Read value") None info) as (_ & _ & _ & Hlimit).
    destruct Hlimit as (Hstays & Hrepeat); [vm_compute; discriminate|].
    split; [exact Hstays|]. eapply Hrepeat; reflexivity.
Defined.

(** ** Hex mode with separators *)

Lemma space_not_hex c : is_js_space c = true -> is_hex_digit c = false.
Proof.
  intros Hs. destruct (is_hex_digit c) eqn:E; [|reflexivity].
  destruct (hex_digit_plain c E) as [H _]. congruence.
Qed.

Lemma strip_non_hex_app (a b : jsstring) :
  strip_non_hex (a ++ b) = strip_non_hex a ++ strip_non_hex b.
Proof. apply List.filter_app. Qed.

Lemma strip_non_hex_spaces (p : jsstring) :
  Forall (fun c => is_js_space c = true) p -> strip_non_hex p = [].
Proof.
  induction 1 as [|c p Hc _ IH]; [reflexivity|].
  cbn. rewrite (space_not_hex c Hc). exact IH.
Qed.

Lemma strip_non_hex_trim (s : jsstring) :
  strip_non_hex (trim s) = strip_non_hex s.
Proof.
  destruct (trimStart_suffix s) as (p & Hp & Hsp).
  destruct (trimEnd_prefix (trimStart s)) as (q & Hq & Hsq).
  fold (trim s) in Hq.
  transitivity (strip_non_hex (p ++ trim s ++ q)).
  - rewrite !strip_non_hex_app.
    rewrite (strip_non_hex_spaces p Hsp), (strip_non_hex_spaces q Hsq).
    rewrite app_nil_r. reflexivity.
  - f_equal. rewrite <- Hq. symmetry. exact Hp.
Qed.

Lemma strip_non_hex_digits (s : jsstring) :
  Forall (fun c => is_hex_digit c = true) (strip_non_hex s).
Proof.
  apply (proj2 (List.Forall_forall _ _)). intros c Hc.
  apply filter_In in Hc. apply Hc.
Qed.

Lemma chunks_of_pairs (n : nat) : forall s : jsstring,
  length s = (2 * S n)%nat ->
  Forall (fun c => is_hex_digit c = true) s ->
  exists first rest, dot_chunks s = first :: rest.
Proof.
  intros s Hlen Hhex. destruct s as [|h [|l rest]]; try (cbn in Hlen; lia).
  inversion_clear Hhex as [|? ? Hh Hhex']. inversion_clear Hhex' as [|? ? Hl _].
  cbn [dot_chunks].
  destruct (hex_digit_plain h Hh) as [_ ->].
  destruct (hex_digit_plain l Hl) as [_ ->].
  eexists _, _. reflexivity.
Qed.

(** In hex mode only the hex digits of the input count. *)
Lemma encodeWritePayload_hex_digits (max_arguments : N) (st : UiState) :
  writeMode st = hex ->
  strip_non_hex (writeValue st) <> [] ->
  (length (strip_non_hex (writeValue st)) mod 2 = 0)%nat ->
  encodeWritePayload max_arguments st
  = encodeBinary max_arguments
      (spread_bytes (hex_pair_bytes (strip_non_hex (writeValue st)))).
Proof.
  intros Hmode Hdigits Heven. unfold encodeWritePayload.
  assert (Htrim : trim (writeValue st) <> []).
  { intros E. apply Hdigits. rewrite <- strip_non_hex_trim, E. reflexivity. }
  rewrite truthy_nonempty by assumption. rewrite Hmode. cbn [negb].
  rewrite strip_non_hex_trim. set (digits := strip_non_hex (writeValue st)) in *.
  rewrite Heven.
  assert (Hhex : Forall (fun c => is_hex_digit c = true) digits)
    by apply strip_non_hex_digits.
  destruct (even_length_half _ Heven) as [n Hn].
  destruct n as [|n]; [destruct digits; [contradiction|discriminate]|].
  pose proof (parse_pairs (S n) digits Hn Hhex) as Hparse.
  destruct (chunks_of_pairs n digits Hn Hhex) as (first & rest & Hchunks).
  unfold match_dot_1_2. rewrite Hchunks in *.
  destruct digits as [|d digits']; [contradiction|].
  cbn [length Nat.eqb orb negb fmap option_fmap option_map].
  change (map parseInt16 (first :: rest))
    with (parseInt16 first :: map parseInt16 rest) in *.
  cbv beta iota. rewrite Hparse. reflexivity.
Qed.

(** X3.  In hex mode separators are ignored.  For every input whose hex
    digits, taken in order, are an even, non-zero number, a payload that is
    produced base64-decodes to the bytes written by the consecutive pairs
    of those digits, whatever stands between them.  One is produced when
    there are no more pairs than the engine accepts as arguments of one
    call; with more, the call of [String.fromCharCode] throws a
    [RangeError]. *)
Theorem hex_payload_ignores_separators (max_arguments : N) (st : UiState) :
  writeMode st = hex ->
  strip_non_hex (writeValue st) <> [] ->
  (length (strip_non_hex (writeValue st)) mod 2 = 0)%nat ->
  let digits := strip_non_hex (writeValue st) in
  (forall payload,
      encodeWritePayload max_arguments st = Ok payload ->
      decodeBytes payload = Ok (hex_pair_bytes digits))
  /\ (N.of_nat (length digits) <= 2 * max_arguments ->
      exists payload, encodeWritePayload max_arguments st = Ok payload)
  /\ (2 * max_arguments < N.of_nat (length digits) ->
      encodeWritePayload max_arguments st = Throw (RangeError rangeError_message)).
Proof.
  intros Hmode Hdigits Heven. cbv zeta.
  rewrite (encodeWritePayload_hex_digits max_arguments st Hmode Hdigits Heven).
  split; [|split].
  - intros payload H. apply encodeBinary_Ok in H. subst payload.
    apply decodeBytes_encode.
  - intros Hfits. eexists. apply encodeBinary_within, pairs_within; assumption.
  - intros Hbeyond. apply encodeBinary_beyond, pairs_beyond; assumption.
Qed.

Lemma hex_payload_ignores_separators_witness :
  (exists payload,
     encodeWritePayload sample_max_arguments (set_write (js " A1-b2 0c") hex initial)
     = Ok payload
     /\ decodeBytes payload = Ok [xa1; xb2; x0c])
  /\ encodeWritePayload 2 (set_write (js " A1-b2 0c") hex initial)
     = Throw (RangeError rangeError_message).
Proof.
  split.
  - destruct (hex_payload_ignores_separators sample_max_arguments
                (set_write (js " A1-b2 0c") hex initial)) as (Hdecodes & Hproduced & _).
    + reflexivity.
    + vm_compute. discriminate.
    + reflexivity.
    + destruct Hproduced as [payload Hpayload]; [vm_compute; discriminate|].
      exists payload. split; [exact Hpayload | exact (Hdecodes payload Hpayload)].
  - apply (hex_payload_ignores_separators 2 (set_write (js " A1-b2 0c") hex initial)).
    + reflexivity.
    + vm_compute. discriminate.
    + reflexivity.
    + vm_compute. reflexivity.
Defined.

(** ** What is read can be written back *)

Lemma strip_non_hex_readout (bs : list byte) :
  strip_non_hex (join (js " ") (map byte_hex bs)) = concat (map byte_hex bs).
Proof.
  induction bs as [|b bs IH]; [reflexivity|].
  destruct (byte_hex_digits b) as [Hd _].
  destruct bs as [|b' bs].
  - cbn [map join concat]. rewrite app_nil_r. apply strip_non_hex_id. exact Hd.
  - change (join (js " ") (map byte_hex (b :: b' :: bs)))
      with (byte_hex b ++ js " " ++ join (js " ") (map byte_hex (b' :: bs))).
    rewrite !strip_non_hex_app, IH. rewrite (strip_non_hex_id _ Hd). reflexivity.
Qed.

(** X4.  A value read can be written back from its hex read-out: for every
    value that [decodeValue] decodes to a non-empty byte sequence of no
    more bytes than the engine accepts as arguments of one call, the [hex]
    text it shows, put into the write box in hex mode, is encoded to the
    base64 of exactly those bytes. *)
Theorem hex_readout_writes_back (max_arguments : N) (v : jsstring) (bs : list byte)
    (st st' : UiState) :
  decodeBytes v = Ok bs ->
  bs <> [] ->
  N.of_nat (length bs) <= max_arguments ->
  writeMode st' = hex ->
  writeValue st' = hex_text (decodeValue v st).1 ->
  exists payload,
    encodeWritePayload max_arguments st' = Ok payload /\ decodeBytes payload = Ok bs.
Proof.
  intros Hv Hne Hfits Hmode Hvalue.
  assert (Hreadout : writeValue st' = join (js " ") (map byte_hex bs)).
  { rewrite Hvalue. unfold decodeValue. rewrite Hv. reflexivity. }
  destruct (hex_of_bytes bs) as (Hhex & Heven & Hpairs).
  exists (b64_encode (map Byte.to_N bs)). split; [|apply decodeBytes_encode].
  rewrite encodeWritePayload_hex_digits; try assumption;
    rewrite Hreadout, strip_non_hex_readout.
  - rewrite Hpairs. apply encodeBinary_within. exact Hfits.
  - destruct bs as [|b bs]; [contradiction|discriminate].
  - exact Heven.
Qed.

Lemma hex_readout_writes_back_witness :
  hex_text (decodeValue (js "obIM") initial).1 = js "a1 b2 0c"
  /\ exists payload,
       encodeWritePayload sample_max_arguments (set_write (js "a1 b2 0c") hex initial)
       = Ok payload
       /\ decodeBytes payload = Ok [xa1; xb2; x0c].
Proof.
  split; [reflexivity|].
  apply (hex_readout_writes_back sample_max_arguments (js "obIM") [xa1; xb2; x0c]
           initial (set_write (js "a1 b2 0c") hex initial)).
  - reflexivity.
  - discriminate.
  - vm_compute. discriminate.
  - reflexivity.
  - reflexivity.
Defined.

(** ** Payloads of the text and hex modes *)

Lemma TextEncoder_nonempty (s : jsstring) : s <> [] -> TextEncoder_encode s <> [].
Proof.
  destruct s as [|c rest]; [contradiction|]. intros _.
  assert (Hscalar : forall cp, utf8_of_scalar cp <> []).
  { intros cp. unfold utf8_of_scalar.
    destruct (cp <? 0x80); [|destruct (cp <? 0x800); [|destruct (cp <? 0x10000)]];
      discriminate. }
  assert (Hcons : forall cp cps,
             concat (map utf8_of_scalar (cp :: cps)) <> []).
  { intros cp cps. cbn [map concat]. specialize (Hscalar cp).
    destruct (utf8_of_scalar cp); [contradiction|discriminate]. }
  unfold TextEncoder_encode. cbn [scalar_values].
  destruct (is_lead_surrogate c).
  - destruct rest as [|d rest']; [apply Hcons|].
    destruct (is_trail_surrogate d); apply Hcons.
  - destruct (is_trail_surrogate c); apply Hcons.
Qed.

Lemma hex_pair_bytes_nonempty (s : jsstring) :
  s <> [] -> (length s mod 2 = 0)%nat -> hex_pair_bytes s <> [].
Proof.
  destruct s as [|h [|l rest]]; [contradiction | discriminate | discriminate].
Qed.

(** X5.  Whatever the text and hex modes produce is canonical base64 of a
    non-empty byte sequence: [decodeValue] decodes it, to those bytes,
    without logging an error. *)
Theorem produced_payload_decodes (max_arguments : N) (st : UiState)
    (payload : jsstring) :
  writeMode st <> base64 ->
  encodeWritePayload max_arguments st = Ok payload ->
  exists bs,
    bs <> []
    /\ payload = b64_encode (map Byte.to_N bs)
    /\ decodeBytes payload = Ok bs
    /\ forall st', (decodeValue payload st').2 = st'.
Proof.
  intros Hmode Hpayload.
  assert (Hdone : forall bs, bs <> [] ->
            encodeWritePayload max_arguments st
            = encodeBinary max_arguments (spread_bytes bs) ->
            exists bs, bs <> [] /\ payload = b64_encode (map Byte.to_N bs)
                       /\ decodeBytes payload = Ok bs
                       /\ forall st', (decodeValue payload st').2 = st').
  { intros bs Hne Henc. rewrite Henc in Hpayload.
    apply encodeBinary_Ok in Hpayload. subst payload.
    exists bs. split; [exact Hne|]. split; [reflexivity|].
    split; [apply decodeBytes_encode|].
    intros st'. unfold decodeValue. rewrite decodeBytes_encode. reflexivity. }
  pose proof Hpayload as Hcopy. unfold encodeWritePayload in Hcopy.
  destruct (truthy (trim (writeValue st))) eqn:Htruthy; [|discriminate Hcopy].
  cbn [negb] in Hcopy.
  destruct (writeMode st) eqn:Hm; [| contradiction |].
  - apply (Hdone (TextEncoder_encode (trim (writeValue st)))).
    + apply TextEncoder_nonempty. intros E. rewrite E in Htruthy. discriminate.
    + unfold encodeWritePayload. rewrite Htruthy, Hm. reflexivity.
  - rewrite strip_non_hex_trim in Hcopy.
    destruct (length (strip_non_hex (writeValue st)) =? 0)%nat eqn:Hzero;
      [discriminate Hcopy|].
    destruct (length (strip_non_hex (writeValue st)) mod 2 =? 0)%nat eqn:Heven;
      [|discriminate Hcopy].
    apply Nat.eqb_neq in Hzero. apply Nat.eqb_eq in Heven.
    assert (Hdigits : strip_non_hex (writeValue st) <> []).
    { intros E. rewrite E in Hzero. apply Hzero. reflexivity. }
    apply (Hdone (hex_pair_bytes (strip_non_hex (writeValue st)))).
    + apply hex_pair_bytes_nonempty; assumption.
    + apply encodeWritePayload_hex_digits; assumption.
Qed.

Lemma produced_payload_decodes_witness :
  exists bs,
    bs <> []
    /\ js "aGk=" = b64_encode (map Byte.to_N bs)
    /\ decodeBytes (js "aGk=") = Ok bs
    /\ forall st', (decodeValue (js "aGk=") st').2 = st'.
Proof.
  apply (produced_payload_decodes sample_max_arguments
           (set_write (js "hi") text initial) (js "aGk=")).
  - discriminate.
  - reflexivity.
Defined.

(** ** Values that are not base64 *)

Lemma strip_padding_keeps c (l : jsstring) :
  In c l -> c <> 61 -> In c (strip_padding l).
Proof.
  intros Hin Hc. induction l as [|x l IH]; [contradiction|].
  cbn [strip_padding].
  destruct ((x =? 61) && (bool_decide (l = []) || bool_decide (l = [61]))) eqn:E.
  - exfalso. apply andb_true_iff in E as [Hx Hl]. apply N.eqb_eq in Hx. subst x.
    destruct Hin as [E|Hin]; [congruence|].
    apply orb_true_iff in Hl as [Hl|Hl]; apply bool_decide_eq_true in Hl; subst l.
    + contradiction.
    + destruct Hin as [E|[]]. congruence.
  - destruct Hin as [->|Hin]; [left; reflexivity | right; exact (IH Hin)].
Qed.

Lemma mapM_b64_value_None c (l : jsstring) :
  In c l -> b64_value c = None -> mapM b64_value l = None.
Proof.
  intros Hin Hc. induction l as [|x l IH]; [contradiction|].
  cbn. destruct Hin as [->|Hin].
  - rewrite Hc. reflexivity.
  - destruct (b64_value x); [|reflexivity]. cbn. rewrite (IH Hin). reflexivity.
Qed.

Lemma forgiving_base64_decode_rejects (v : jsstring) :
  (exists c, In c v /\ b64_value c = None
             /\ is_ascii_whitespace c = false /\ c <> 61)
  \/ N.of_nat (length (List.filter (fun c => negb (is_ascii_whitespace c)) v)) mod 4 = 1 ->
  forgiving_base64_decode v = None.
Proof.
  unfold forgiving_base64_decode.
  set (data1 := List.filter (fun c => negb (is_ascii_whitespace c)) v).
  intros [(c & Hin & Hnone & Hws & Hpad) | Hlen].
  - assert (Hin1 : In c data1).
    { apply filter_In. split; [exact Hin|]. rewrite Hws. reflexivity. }
    set (data2 := if N.of_nat (length data1) mod 4 =? 0
                  then strip_padding data1 else data1).
    assert (Hin2 : In c data2).
    { unfold data2. destruct (_ =? 0); [|exact Hin1].
      apply strip_padding_keeps; assumption. }
    destruct (_ =? 1); [reflexivity|].
    rewrite (mapM_b64_value_None c data2 Hin2 Hnone). reflexivity.
  - rewrite Hlen. cbn [N.eqb Pos.eqb]. rewrite Hlen. reflexivity.
Qed.

(** X6.  [decodeValue] never throws.  A value with a character that is
    neither of the base64 alphabet, nor ASCII white space, nor [=], or a
    value whose length without white space is one more than a multiple of
    four, is answered with [(decode error)] and an empty [hex], and the
    failure is logged once, as an error. *)
Theorem decodeValue_reports_bad_base64 (v : jsstring) (st : UiState) :
  (exists c, In c v /\ b64_value c = None
             /\ is_ascii_whitespace c = false /\ c <> 61)
  \/ N.of_nat (length (List.filter (fun c => negb (is_ascii_whitespace c)) v)) mod 4 = 1 ->
  decodeValue v st
  = ({| utf8 := js "(decode error)"; hex_text := [] |},
     log (js "Base64 decode failed")
       (Some (JStr (js "InvalidCharacterError: " ++ atob_message))) error st).
Proof.
  intros Hbad. unfold decodeValue, decodeBytes, atob.
  rewrite (forgiving_base64_decode_rejects v Hbad). reflexivity.
Qed.

Lemma decodeValue_reports_bad_base64_witness :
  decodeValue (js "a-b=") initial
  = ({| utf8 := js "(decode error)"; hex_text := [] |},
     log (js "Base64 decode failed")
       (Some (JStr (js "InvalidCharacterError: " ++ atob_message))) error initial).
Proof.
  apply (decodeValue_reports_bad_base64 (js "a-b=") initial).
  left. exists 45. repeat split; [right; left; reflexivity | discriminate].
Defined.

(** ** Subscription keys *)

Lemma bar_split (d1 d2 r1 r2 : jsstring) :
  bar_free d1 -> bar_free d2 ->
  d1 ++ 124 :: r1 = d2 ++ 124 :: r2 -> d1 = d2 /\ r1 = r2.
Proof.
  unfold bar_free. revert d2.
  induction d1 as [|x d1 IH]; intros [|y d2] H1 H2 E; cbn in E.
  - injection E as ->. split; reflexivity.
  - injection E as <- _. exfalso. apply H2. left. reflexivity.
  - injection E as -> _. exfalso. apply H1. left. reflexivity.
  - injection E as -> E.
    destruct (IH d2) as [-> ->]; try assumption.
    + intros Hin. apply H1. right. exact Hin.
    + intros Hin. apply H2. right. exact Hin.
    + split; reflexivity.
Qed.

(** X7.  Keys do not collide for ids and service UUIDs without a vertical
    bar: two triples with the same [subKey] are then the same triple. *)
Theorem subKey_injective (d1 s1 c1 d2 s2 c2 : jsstring) :
  bar_free d1 -> bar_free s1 -> bar_free d2 -> bar_free s2 ->
  subKey d1 s1 c1 = subKey d2 s2 c2 ->
  d1 = d2 /\ s1 = s2 /\ c1 = c2.
Proof.
  intros Hd1 Hs1 Hd2 Hs2 E. unfold subKey in E.
  change (js "|" ++ ?x) with (124 :: x) in E.
  apply bar_split in E as [-> E]; try assumption.
  change (js "|" ++ ?x) with (124 :: x) in E.
  apply bar_split in E as [-> ->]; try assumption.
  repeat split.
Qed.

Lemma subKey_injective_witness :
  js "A" = js "A" /\ js "180d" = js "180d" /\ js "2a37" = js "2a37".
Proof.
  apply (subKey_injective (js "A") (js "180d") (js "2a37")
           (js "A") (js "180d") (js "2a37"));
    try reflexivity;
    unfold bar_free; vm_compute; intuition discriminate.
Defined.

Lemma includes_filter_keep (f : jsstring -> bool) keys (key : jsstring) :
  f key = true -> includes (List.filter f keys) key = includes keys key.
Proof.
  intros Hf. destruct (includes keys key) eqn:E.
  - apply includes_In. apply filter_In. split; [|exact Hf].
    apply includes_In. exact E.
  - apply not_true_is_false. intros H. apply includes_In, filter_In in H as [H _].
    apply includes_In in H. congruence.
Qed.

Lemma includes_app_other keys (key other : jsstring) :
  other <> key -> includes (keys ++ [key]) other = includes keys other.
Proof.
  intros Hne. unfold includes. rewrite existsb_app. cbn.
  unfold str_eqb at 2. rewrite bool_decide_eq_false_2 by exact Hne.
  rewrite !orb_false_r. reflexivity.
Qed.

Lemma unsubscribe_selection d st :
  activeDeviceId (unsubscribe d st) = activeDeviceId st
  /\ workingServiceUuid (unsubscribe d st) = workingServiceUuid st
  /\ workingCharacteristicUuid (unsubscribe d st) = workingCharacteristicUuid st.
Proof. repeat split. Qed.

Lemma run_startNotify_ok (h : Host) (b : host_state h) (st st1 : UiState) b1 :
  run_step h (startNotify st) b = (Ok tt, st1, b1) ->
  exists d, selected st = Some d
            /\ truthy (workingServiceUuid st) = true
            /\ truthy (workingCharacteristicUuid st) = true
            /\ st1 = subscribe d st.
Proof.
  unfold startNotify, bind, ensureDevice.
  destruct (selected st) as [d|] eqn:Hsel; cbn [step_bind get];
    [|cbn; discriminate].
  destruct (truthy (workingServiceUuid st)); cbn; [|discriminate].
  destruct (truthy (workingCharacteristicUuid st)); cbn; [|discriminate].
  destruct (answer h TUnknown _ _ b) as [[v|e] b']; cbn; [|discriminate].
  intros [= <- _]. exists d. repeat split.
Qed.

(** X8.  The indicator follows the two commands.  Against any host, after
    a run of [startNotify] that succeeded [isSubscribed] is true, and after
    a run of [stopNotify] that succeeded it is false, for the selection the
    command was run on. *)
Theorem isSubscribed_follows_commands (h : Host) (b : host_state h) (st : UiState) :
  (forall st1 b1,
      run_step h (startNotify st) b = (Ok tt, st1, b1) -> isSubscribed st1 = true)
  /\ (forall st1 b1,
         run_step h (stopNotify st) b = (Ok tt, st1, b1) -> isSubscribed st1 = false).
Proof.
  split; intros st1 b1 Hrun.
  - apply run_startNotify_ok in Hrun as (d & Hsel & Hs & Hc & ->).
    unfold isSubscribed, selected in *.
    destruct (subscribe_selection d st) as (-> & -> & ->).
    rewrite Hsel, Hs, Hc. cbn [negb orb].
    rewrite subscribe_keys. cbv zeta.
    destruct (includes (subscribedKeys st) _) eqn:E; [exact E|].
    apply includes_app_self.
  - pose proof (run_stopNotify h b st) as H. rewrite Hrun in H.
    destruct H as [(_ & d & Hsel & Hs & Hc & ->) | ((e & He) & _)];
      [|discriminate He].
    unfold isSubscribed, selected in *.
    destruct (unsubscribe_selection d st) as (-> & -> & ->).
    rewrite Hsel, Hs, Hc. cbn [negb orb].
    unfold unsubscribe. rewrite log_subscribedKeys.
    cbn [subscribedKeys set_subscribedKeys].
    apply not_true_is_false. intros Hin.
    apply includes_In, filter_In in Hin as [_ Hkept].
    unfold str_eqb in Hkept. rewrite bool_decide_eq_true_2 in Hkept by reflexivity.
    discriminate Hkept.
Qed.

Lemma isSubscribed_follows_commands_witness :
  let st1 := (run_step accepting_host (startNotify on_A) tt).1.2 in
  isSubscribed st1 = true
  /\ isSubscribed (run_step accepting_host (stopNotify st1) tt).1.2 = false.
Proof.
  cbv zeta. split.
  - exact (proj1 (isSubscribed_follows_commands accepting_host tt on_A)
             _ tt eq_refl).
  - exact (proj2 (isSubscribed_follows_commands accepting_host tt
                    (run_step accepting_host (startNotify on_A) tt).1.2)
             _ tt eq_refl).
Defined.

(** X9.  The two commands touch one key only.  Against any host, whether
    the run succeeds or fails, a key other than the one of the current
    selection is subscribed after [startNotify], and after [stopNotify],
    exactly if it was before. *)
Theorem notify_spares_other_keys (h : Host) (b : host_state h) (st : UiState)
    (other : jsstring) :
  (forall d,
      selected st = Some d ->
      other <> subKey d (workingServiceUuid st) (workingCharacteristicUuid st)) ->
  includes (subscribedKeys (run_step h (startNotify st) b).1.2) other
  = includes (subscribedKeys st) other
  /\ includes (subscribedKeys (run_step h (stopNotify st) b).1.2) other
     = includes (subscribedKeys st) other.
Proof.
  intros Hother. split.
  - pose proof (run_startNotify h b st) as H.
    destruct (run_step h (startNotify st) b) as [[o st1] b1]. cbn [fst snd].
    destruct H as [(_ & d & Hsel & ->) | (_ & ->)]; [|reflexivity].
    rewrite subscribe_keys. cbv zeta.
    destruct (includes (subscribedKeys st) (subKey d _ _)); [reflexivity|].
    apply includes_app_other. apply Hother. exact Hsel.
  - pose proof (run_stopNotify h b st) as H.
    destruct (run_step h (stopNotify st) b) as [[o st1] b1]. cbn [fst snd].
    destruct H as [(_ & d & Hsel & _ & _ & ->) | (_ & ->)]; [|reflexivity].
    unfold unsubscribe. rewrite log_subscribedKeys.
    cbn [subscribedKeys set_subscribedKeys].
    apply includes_filter_keep. unfold str_eqb.
    rewrite bool_decide_eq_false_2; [reflexivity|]. apply Hother. exact Hsel.
Qed.

Lemma notify_spares_other_keys_witness :
  let st1 := (run_step accepting_host (startNotify on_A) tt).1.2 in
  let on_other := set_working (js "180f") (js "2a19") st1 in
  includes (subscribedKeys (run_step accepting_host (startNotify on_other) tt).1.2)
    (js "A|180d|2a37") = true
  /\ includes (subscribedKeys (run_step accepting_host (stopNotify on_other) tt).1.2)
       (js "A|180d|2a37") = true.
Proof.
  cbv zeta.
  apply (notify_spares_other_keys accepting_host tt
           (set_working (js "180f") (js "2a19")
              (run_step accepting_host (startNotify on_A) tt).1.2)
           (js "A|180d|2a37")).
  intros d [= <-]. discriminate.
Defined.

(** ** Disconnect events and other devices *)

Lemma startsWith_prefix (s p : jsstring) :
  startsWith s p = true -> exists t, s = p ++ t.
Proof.
  revert s. induction p as [|x p IH]; intros s H.
  - exists s. reflexivity.
  - destruct s as [|y s]; [discriminate H|]. cbn in H.
    apply andb_true_iff in H as [Hxy H]. apply N.eqb_eq in Hxy. subst y.
    destruct (IH s H) as [t ->]. exists t. reflexivity.
Qed.

Lemma other_device_key (X Y s c : jsstring) :
  bar_free X -> bar_free Y -> Y <> X ->
  startsWith (subKey Y s c) (X ++ js "|") = false.
Proof.
  intros HX HY Hne. apply not_true_is_false. intros H.
  apply startsWith_prefix in H as [t E]. unfold subKey in E.
  rewrite <- app_assoc in E.
  change (js "|" ++ ?x) with (124 :: x) in E.
  apply bar_split in E as [E _]; try assumption. contradiction.
Qed.

(** X10.  A disconnect event never adds a key, and for ids without a
    vertical bar it spares the other devices: whichever device is selected,
    after the event for [X] a key of another device [Y] is subscribed
    exactly if it was before. *)
Theorem disconnect_spares_other_devices (X : jsstring) (st : UiState) :
  let st' := handleDisconnectEvent {| deviceId := X |} st in
  (forall key, includes (subscribedKeys st') key = true ->
               includes (subscribedKeys st) key = true)
  /\ (forall Y s c,
         bar_free X -> bar_free Y -> Y <> X ->
         includes (subscribedKeys st') (subKey Y s c)
         = includes (subscribedKeys st) (subKey Y s c)).
Proof.
  cbv zeta. unfold handleDisconnectEvent. cbn [deviceId].
  destruct (bool_decide _);
    cbn [subscribedKeys set_subscribedKeys]; rewrite log_subscribedKeys.
  - split.
    + intros key H. apply includes_In, filter_In in H as [H _].
      apply includes_In. exact H.
    + intros Y s c HX HY Hne. apply includes_filter_keep.
      rewrite other_device_key by assumption. reflexivity.
  - split; [intros key H; exact H | reflexivity].
Qed.

Lemma disconnect_spares_other_devices_witness :
  let both :=
    set_subscribedKeys [js "A|180d|2a37"; js "B|180d|2a37"]
      (selectDevice device_A initial) in
  subscribedKeys (handleDisconnectEvent {| deviceId := js "A" |} both)
  = [js "B|180d|2a37"]
  /\ includes
       (subscribedKeys (handleDisconnectEvent {| deviceId := js "A" |} both))
       (subKey (js "B") (js "180d") (js "2a37")) = true.
Proof.
  cbv zeta. split; [reflexivity|].
  rewrite (proj2 (disconnect_spares_other_devices (js "A")
                    (set_subscribedKeys [js "A|180d|2a37"; js "B|180d|2a37"]
                       (selectDevice device_A initial)))).
  - reflexivity.
  - vm_compute; intuition discriminate.
  - vm_compute; intuition discriminate.
  - discriminate.
Defined.

(** ** The cache and the selection *)

Lemma find_id (result : list BluetoothDevice) (active : jsstring) :
  existsb (fun device => str_eqb (id device) active) result = true ->
  exists d, List.find (fun device => str_eqb (id device) active) result = Some d
            /\ id d = active.
Proof.
  induction result as [|x result IH]; [discriminate|].
  cbn. destruct (str_eqb (id x) active) eqn:E.
  - intros _. exists x. split; [reflexivity|].
    apply bool_decide_eq_true in E. exact E.
  - cbn. exact IH.
Qed.

(** X11.  After a refresh the selection is backed by the cache.  Whatever
    the state is when the response [r] of [get_devices] arrives, a
    non-empty selection that is left afterwards is the id of a device of
    [r], which [currentDevice] finds; a selection that occurs in [r] is
    kept; nothing but the device list, the selection and the log changes.
    When [get_devices] is rejected the state is left as it is and the
    rejection is passed on. *)
Theorem refreshDevices_selection_in_cache (st : UiState) :
  exists resume,
    refreshDevices st
    = Awaiting TDevices (js "plugin:web-bluetooth|get_devices") (JObj []) st resume
    /\ (forall e st', resume (Throw e) st' = Finished (Throw e) st')
    /\ forall (r : list BluetoothDevice) (st' : UiState),
         resume (Ok r) st' = Finished (Ok tt) (store_devices r st')
         /\ (forall a, selected (store_devices r st') = Some a ->
                       exists d, currentDevice (store_devices r st') = Some d
                                 /\ id d = a /\ In d r)
         /\ (forall a, activeDeviceId st' = Some a -> In a (map id r) ->
                       activeDeviceId (store_devices r st') = Some a)
         /\ subscribedKeys (store_devices r st') = subscribedKeys st'.
Proof.
  eexists. split; [reflexivity|]. split; [reflexivity|].
  intros r st'. split; [reflexivity|].
  unfold store_devices. unfold currentDevice, selected.
  rewrite log_activeDeviceId, log_devices, log_subscribedKeys.
  change (activeDeviceId (set_devices r st')) with (activeDeviceId st').
  destruct (activeDeviceId st') as [a0|] eqn:Hactive.
  2: { cbn [activeDeviceId devices subscribedKeys set_devices]. rewrite Hactive.
       split; [discriminate|]. split; [discriminate|reflexivity]. }
  destruct (truthy a0) eqn:Htruthy;
    [destruct (existsb (fun device => str_eqb (id device) a0) r) eqn:Hex|];
    cbn [negb];
    cbn [activeDeviceId devices subscribedKeys set_activeDeviceId set_devices];
    rewrite ?Hactive, ?Htruthy.
  - split; [|split; [|reflexivity]].
    + intros a [= <-]. destruct (find_id r a0 Hex) as (d & Hfind & Hid).
      exists d. split; [exact Hfind|]. split; [exact Hid|].
      apply find_some in Hfind. apply Hfind.
    + intros a [= <-] _. reflexivity.
  - split; [discriminate|]. split; [|reflexivity].
    intros a [= <-] Hin. exfalso.
    apply in_map_iff in Hin as (d & Hid & Hd).
    apply not_true_iff_false in Hex. apply Hex.
    apply existsb_exists. exists d. split; [exact Hd|].
    apply bool_decide_eq_true. exact Hid.
  - split; [discriminate|]. split; [|reflexivity].
    intros a [= <-] _. reflexivity.
Qed.

(** ** The discovery request *)

Lemma nonempty_Some {A} (l : list A) : l <> [] -> nonempty l <> None.
Proof. destruct l; [contradiction|discriminate]. Qed.

Lemma nonempty_not_nil {A} (l : list A) : nonempty l <> Some [].
Proof. destruct l; discriminate. Qed.

Lemma positive_length {A} (l : list A) : (0 <? length l)%nat = true -> l <> [].
Proof. destruct l; [discriminate|discriminate]. Qed.

Lemma trim_nonempty (s : jsstring) : trim s <> [] -> s <> [].
Proof. intros H ->. apply H. reflexivity. Qed.

(** X12.  What [requestNewDevice] sends is well formed.  It either throws
    before any invocation, leaving the state as it is, or invokes
    [request_device] once with options that either accept all devices and
    carry no filters, or carry exactly one filter with at least one of its
    fields set and no [acceptAllDevices]; the optional services are never
    an empty list and the timeout is never zero. *)
Theorem requestNewDevice_request_well_formed (st : UiState) :
  requestNewDevice st = Finished (Throw (Error no_filter_message)) st
  \/ exists options resume,
       requestNewDevice st
       = Awaiting TDevice (js "plugin:web-bluetooth|request_device")
           (JObj [(js "options", json_of_options options)]) st resume
       /\ ((Types.acceptAllDevices options = Some true /\ filters options = None)
           \/ (Types.acceptAllDevices options = None
               /\ exists f, filters options = Some [f]
                            /\ (filter_services f <> None
                                \/ filter_name f <> None
                                \/ filter_namePrefix f <> None)))
       /\ optionalServices options <> Some []
       /\ Types.scanTimeoutMs options <> Some 0%Z.
Proof.
  unfold requestNewDevice, bind, get. cbn [step_bind].
  assert (Htimeout : forall t : option Z,
            match t with Some 0%Z | None => None | Some ms => Some ms end
            <> Some 0%Z).
  { intros [[| |]|]; discriminate. }
  destruct (acceptAllDevices st) eqn:Haccept; cbn [negb andb].
  - right. exists (request_options st). eexists. split; [reflexivity|].
    unfold request_options. rewrite Haccept. cbn.
    split; [left; split; reflexivity|].
    split; [apply nonempty_not_nil | apply Htimeout].
  - unfold request_filters. destruct (hasFilterDetails st) eqn:Hdetails.
    + right. exists (request_options st). eexists. split; [reflexivity|].
      unfold request_options, request_filters. rewrite Haccept, Hdetails. cbn.
      split; [|split; [apply nonempty_not_nil | apply Htimeout]].
      right. split; [reflexivity|]. eexists. split; [reflexivity|]. cbn.
      unfold hasFilterDetails in Hdetails.
      apply orb_true_iff in Hdetails as [Hdetails|Hprefix].
      * apply orb_true_iff in Hdetails as [Hservices|Hname].
        -- left. apply nonempty_Some, positive_length, Hservices.
        -- right. left.
           apply nonempty_Some, trim_nonempty, positive_length, Hname.
      * right. right.
        apply nonempty_Some, trim_nonempty, positive_length, Hprefix.
    + left. reflexivity.
Qed.

Lemma store_devices_keeps (a : jsstring) (r : list BluetoothDevice) (st : UiState) :
  activeDeviceId st = Some a -> In a (map id r) ->
  activeDeviceId (store_devices r st) = Some a.
Proof.
  intros Hactive Hin. unfold store_devices, selected.
  rewrite log_activeDeviceId.
  change (activeDeviceId (set_devices r st)) with (activeDeviceId st).
  rewrite Hactive. destruct (truthy a); [|exact Hactive].
  assert (Hex : existsb (fun device => str_eqb (id device) a) r = true).
  { apply in_map_iff in Hin as (d & Hid & Hd).
    apply existsb_exists. exists d. split; [exact Hd|].
    apply bool_decide_eq_true. exact Hid. }
  rewrite Hex. exact Hactive.
Qed.

(** X13.  A granted request selects the device.  When the guard of
    [requestNewDevice] passes, a rejection of [request_device] is passed on
    with the state untouched; an answer [d] makes [d] the selection at once
    and is followed by [get_devices]; a rejection of that is passed on with
    the selection kept, and a response in which [d] occurs leaves [d]
    selected and becomes the device list. *)
Theorem requestNewDevice_selects (st : UiState) :
  acceptAllDevices st = true \/ hasFilterDetails st = true ->
  exists resume,
    requestNewDevice st
    = Awaiting TDevice (js "plugin:web-bluetooth|request_device")
        (JObj [(js "options", json_of_options (request_options st))]) st resume
    /\ (forall e st1, resume (Throw e) st1 = Finished (Throw e) st1)
    /\ forall d st1,
         exists resume2,
           resume (Ok d) st1
           = Awaiting TDevices (js "plugin:web-bluetooth|get_devices") (JObj [])
               (selectDevice d st1) resume2
           /\ activeDeviceId (selectDevice d st1) = Some (id d)
           /\ (forall e st2, resume2 (Throw e) st2 = Finished (Throw e) st2)
           /\ forall r st2,
                resume2 (Ok r) st2 = Finished (Ok tt) (store_devices r st2)
                /\ (In d r ->
                    devices (store_devices r (selectDevice d st1)) = r
                    /\ activeDeviceId (store_devices r (selectDevice d st1))
                       = Some (id d)).
Proof.
  intros Hguard.
  assert (Hpass : negb (acceptAllDevices st)
                  && (length (request_filters st) =? 0)%nat = false).
  { unfold request_filters.
    destruct Hguard as [-> | ->]; [reflexivity|]. apply andb_false_r. }
  unfold requestNewDevice, bind, get. cbn [step_bind]. rewrite Hpass.
  eexists. split; [reflexivity|]. split; [reflexivity|].
  intros d st1. eexists. split; [reflexivity|]. split; [reflexivity|].
  split; [reflexivity|].
  intros r st2. split; [reflexivity|]. intros Hin.
  split; [apply store_devices_devices|].
  apply store_devices_keeps; [reflexivity|]. apply in_map. exact Hin.
Qed.

Lemma requestNewDevice_selects_witness :
  let st' := (run_step (host_with_devices [empty_response TDevice])
                (requestNewDevice initial) tt).1.2 in
  activeDeviceId st' = Some (js "D1") /\ devices st' = [empty_response TDevice].
Proof.
  cbv zeta.
  destruct (requestNewDevice_selects initial (or_introl eq_refl))
    as (resume & Heq & _ & Hgranted).
  rewrite Heq. cbn [run_step host_with_devices answer].
  destruct (Hgranted (empty_response TDevice) initial)
    as (resume2 & Heq2 & _ & _ & Hrefreshed).
  rewrite Heq2. cbn [run_step host_with_devices answer].
  destruct (Hrefreshed [empty_response TDevice]
              (selectDevice (empty_response TDevice) initial)) as (Heq3 & Hin).
  cbn [response] in Heq3 |- *. rewrite Heq3. cbn [run_step fst snd].
  destruct (Hin (or_introl eq_refl)) as (Hdevices & Hactive).
  split; assumption.
Defined.

(** ** Commands that need a device *)

Lemma with_ui_same (c : Component) : with_ui (ui c) c = c.
Proof. destruct c. reflexivity. Qed.

Lemma zoom_ensureDevice (c : Component) :
  zoom ensureDevice c
  = match selected (ui c) with
    | Some d => Finished (Ok d) c
    | None => Finished (Throw (Error (js "Select or request a device first"))) c
    end.
Proof.
  unfold zoom, ensureDevice. destruct (selected (ui c)); cbn [zoom_step];
    rewrite with_ui_same; reflexivity.
Qed.

(** X14.  Without a selected device no command that needs one reaches the
    host: connect, disconnect, the two fetches, read, write, start and stop
    all throw [Select or request a device first] before any invocation and
    leave the state as it is.  No selection and the empty id count alike. *)
Theorem commands_need_a_device (max_arguments : N) (c : Component) :
  selected (ui c) = None ->
  let refused {S} (s : S) : Step S unit :=
    Finished (Throw (Error (js "Select or request a device first"))) s in
  connectDevice c = refused c
  /\ disconnectDevice c = refused c
  /\ fetchServices c = refused c
  /\ fetchCharacteristics c = refused c
  /\ readCharacteristic c = refused c
  /\ writeCharacteristic max_arguments c = refused c
  /\ startNotify (ui c) = refused (ui c)
  /\ stopNotify (ui c) = refused (ui c).
Proof.
  intros Hnone. cbv zeta.
  unfold connectDevice, disconnectDevice, fetchServices, fetchCharacteristics,
    readCharacteristic, writeCharacteristic, startNotify, stopNotify, bind.
  rewrite !zoom_ensureDevice. unfold ensureDevice. rewrite Hnone.
  repeat split.
Qed.

Lemma commands_need_a_device_witness :
  connectDevice mounted
  = Finished (Throw (Error (js "Select or request a device first"))) mounted
  /\ writeCharacteristic sample_max_arguments
       (with_ui (selectDevice device_blank (set_write (js "a1") hex initial)) mounted)
     = Finished (Throw (Error (js "Select or request a device first")))
         (with_ui (selectDevice device_blank (set_write (js "a1") hex initial)) mounted).
Proof.
  split.
  - apply (commands_need_a_device sample_max_arguments mounted). reflexivity.
  - apply (commands_need_a_device sample_max_arguments
             (with_ui (selectDevice device_blank (set_write (js "a1") hex initial))
                mounted)).
    reflexivity.
Defined.

(** ** Writing *)

(** X15.  [writeCharacteristic] sends what [encodeWritePayload] produced
    and nothing else.  With a device selected and both UUIDs set: when the
    encoding throws, the same error is thrown before any invocation and the
    state is left as it is; when it produces a payload, that payload and
    the current [withResponse] are sent in one [write_characteristic_value],
    a rejection is passed on, and an acceptance is logged. *)
Theorem writeCharacteristic_sends_payload (max_arguments : N) (c : Component)
    (d : jsstring) :
  selected (ui c) = Some d ->
  truthy (workingServiceUuid (ui c)) = true ->
  truthy (workingCharacteristicUuid (ui c)) = true ->
  (forall e, encodeWritePayload max_arguments (ui c) = Throw e ->
             writeCharacteristic max_arguments c = Finished (Throw e) c)
  /\ (forall payload,
         encodeWritePayload max_arguments (ui c) = Ok payload ->
         exists resume,
           writeCharacteristic max_arguments c
           = Awaiting TUnknown (js "plugin:web-bluetooth|write_characteristic_value")
               (JObj [(js "request",
                       JObj [(js "deviceId", JStr d);
                             (js "serviceUuid", JStr (workingServiceUuid (ui c)));
                             (js "characteristicUuid",
                              JStr (workingCharacteristicUuid (ui c)));
                             (js "value", JStr payload);
                             (js "withResponse", JBool (withResponse c))])])
               c resume
           /\ (forall e c', resume (Throw e) c' = Finished (Throw e) c')
           /\ (forall v c',
                  resume (Ok v) c'
                  = Finished (Ok tt)
                      (log_c (js "write_characteristic_value")
                         (Some (JObj [(js "withResponse", JBool (withResponse c'));
                                      (js "payloadMode",
                                       JStr (mode_name (writeMode (ui c'))))]))
                         info c'))).
Proof.
  intros Hsel Hs Hc.
  unfold writeCharacteristic, bind. rewrite zoom_ensureDevice, Hsel.
  cbn [step_bind get]. rewrite Hs, Hc. cbn [negb orb].
  split.
  - intros e ->. reflexivity.
  - intros payload ->. eexists. split; [reflexivity|]. split; reflexivity.
Qed.

Lemma writeCharacteristic_sends_payload_witness :
  let c := with_ui (set_write (js "a1") hex on_A) mounted in
  (run_step accepting_host (writeCharacteristic sample_max_arguments c) tt).1.1 = Ok tt
  /\ run_trace accepting_host (writeCharacteristic sample_max_arguments c) tt
     = [(js "plugin:web-bluetooth|write_characteristic_value",
         JObj [(js "request",
                JObj [(js "deviceId", JStr (js "A"));
                      (js "serviceUuid", JStr (js "180d"));
                      (js "characteristicUuid", JStr (js "2a37"));
                      (js "value", JStr (js "oQ=="));
                      (js "withResponse", JBool true)])])].
Proof.
  cbv zeta.
  destruct (proj2 (writeCharacteristic_sends_payload sample_max_arguments
                     (with_ui (set_write (js "a1") hex on_A) mounted) (js "A")
                     eq_refl eq_refl eq_refl) (js "oQ==") eq_refl)
    as (resume & Heq & _ & Hok).
  rewrite Heq. cbn [run_step run_trace accepting_host answer].
  rewrite Hok. split; reflexivity.
Defined.

(** ** The button wrapper *)

Lemma run_step_finally {S A} (h : Host) (p : Step S A) (cleanup : S -> S)
    (b : host_state h) :
  run_step h (step_finally p cleanup) b
  = let '(o, s, b') := run_step h p b in (o, cleanup s, b').
Proof.
  revert b. induction p as [o s | t command payload s resume IH]; intros b.
  - reflexivity.
  - cbn [step_finally run_step].
    destruct (answer h t command payload b) as [r b']. apply IH.
Qed.

Lemma run_step_catch {S A} (h : Host) (p : Step S A) (handler : JsError -> Async S A)
    (b : host_state h) :
  run_step h (step_catch p handler) b
  = let '(o, s, b') := run_step h p b in
    match o with
    | Ok a => (Ok a, s, b')
    | Throw e => run_step h (handler e s) b'
    end.
Proof.
  revert b. induction p as [[a|e] s | t command payload s resume IH]; intros b.
  - reflexivity.
  - reflexivity.
  - cbn [step_catch run_step].
    destruct (answer h t command payload b) as [r b']. apply IH.
Qed.

Lemma run_trace_finally {S A} (h : Host) (p : Step S A) (cleanup : S -> S)
    (b : host_state h) :
  run_trace h (step_finally p cleanup) b = run_trace h p b.
Proof.
  revert b. induction p as [o s | t command payload s resume IH]; intros b.
  - reflexivity.
  - cbn [step_finally run_trace].
    destruct (answer h t command payload b) as [r b']. f_equal. apply IH.
Qed.

Lemma run_trace_catch_quiet {S A} (h : Host) (p : Step S A)
    (handler : JsError -> Async S A) (b : host_state h) :
  (forall e s b', run_trace h (handler e s) b' = []) ->
  run_trace h (step_catch p handler) b = run_trace h p b.
Proof.
  intros Hquiet. revert b.
  induction p as [[a|e] s | t command payload s resume IH]; intros b.
  - reflexivity.
  - apply Hquiet.
  - cbn [step_catch run_trace].
    destruct (answer h t command payload b) as [r b']. f_equal. apply IH.
Qed.

(** X16.  [run] settles every task.  While the key is busy it does
    nothing: no invocation, the state untouched.  Otherwise, against any
    host, it sends what the task sends, never throws, logs a failure of the
    task as [Command <key> failed] with the described error, and leaves the
    key not busy, whether the task succeeded or failed. *)
Theorem run_settles (key : jsstring) (task : Async Component unit) (h : Host)
    (b : host_state h) (c : Component) :
  (is_busy key c = true -> run key task c = Finished (Ok tt) c)
  /\ (is_busy key c = false ->
      let '(o, c1, b1) := run_step h (task (setBusy key true c)) b in
      let c2 :=
        match o with
        | Ok _ => c1
        | Throw e =>
            log_c (js "Command " ++ key ++ js " failed")
              (JStr <$> describeError e) error c1
        end in
      run_step h (run key task c) b = (Ok tt, setBusy key false c2, b1)
      /\ is_busy key (setBusy key false c2) = false
      /\ run_trace h (run key task c) b
         = run_trace h (task (setBusy key true c)) b).
Proof.
  split; intros Hbusy; unfold run; rewrite Hbusy; [reflexivity|].
  rewrite run_step_finally, run_step_catch, run_trace_finally.
  rewrite run_trace_catch_quiet by reflexivity.
  destruct (run_step h (task (setBusy key true c)) b) as [[[[]|e] c1] b1];
    cbn [run_step]; (split; [reflexivity|]); (split; [|reflexivity]);
    unfold is_busy, setBusy; cbn [busy]; rewrite lookup_insert_eq; reflexivity.
Qed.

Lemma run_settles_witness :
  let c' := (run_step accepting_host (run (js "connect") connectDevice mounted) tt).1.2 in
  is_busy (js "connect") c' = false
  /\ (label <$> head (logEntries (ui c'))) = Some (js "Command connect failed")
  /\ (log_payload <$> head (logEntries (ui c')))
     = Some (Some (JStr (js "Error: Select or request a device first")))
  /\ run_trace accepting_host (run (js "connect") connectDevice mounted) tt = [].
Proof.
  cbv zeta.
  pose proof (proj2 (run_settles (js "connect") connectDevice accepting_host tt
                       mounted) eq_refl) as H.
  cbv beta iota zeta in H.
  change (run_step accepting_host
            (connectDevice (setBusy (js "connect") true mounted)) tt)
    with (Throw (A:=unit) (Error (js "Select or request a device first")),
          setBusy (js "connect") true mounted, tt) in H.
  cbv beta iota zeta in H. destruct H as (Hrun & Hbusy & Htrace).
  rewrite Hrun, Htrace. cbn [fst snd]. split; [exact Hbusy|].
  split; [reflexivity|]. split; reflexivity.
Defined.

(** ** Forgetting a device *)

Lemma store_devices_active (r : list BluetoothDevice) (st : UiState) :
  activeDeviceId (store_devices r st) = None
  \/ activeDeviceId (store_devices r st) = activeDeviceId st.
Proof.
  unfold store_devices. rewrite log_activeDeviceId.
  destruct (selected (set_devices r st)); [destruct (negb _)|];
    [left | right | right]; reflexivity.
Qed.

Lemma store_devices_subscribedKeys (r : list BluetoothDevice) (st : UiState) :
  subscribedKeys (store_devices r st) = subscribedKeys st.
Proof.
  unfold store_devices. rewrite log_subscribedKeys.
  destruct (selected (set_devices r st)); [destruct (negb _)|]; reflexivity.
Qed.

Lemma deselect_gone (deviceId : jsstring) (st : UiState) :
  activeDeviceId (deselect deviceId st) <> Some deviceId
  /\ subscribedKeys (deselect deviceId st) = subscribedKeys st.
Proof.
  unfold deselect. destruct (bool_decide_reflect (Some deviceId = activeDeviceId st)).
  - split; [discriminate | reflexivity].
  - split; [congruence | reflexivity].
Qed.

(** X17.  Forgetting deselects, and keeps the subscriptions.  Against any
    host: when [forget_device] is rejected the rejection is passed on and
    the state is left as it is; when it is accepted the forgotten device is
    not the selection afterwards, whatever [get_devices] answers then.  In
    both cases the subscribed keys are left as they were, those of the
    forgotten device included. *)
Theorem forgetDeviceById_deselects (h : Host) (b : host_state h) (c : Component)
    (deviceId : jsstring) :
  let forgotten :=
    (answer h TUnknown (js "plugin:web-bluetooth|forget_device")
       (JObj [(js "request", JObj [(js "deviceId", JStr deviceId)])]) b).1 in
  let '(o, c', _) := run_step h (forgetDeviceById deviceId c) b in
  subscribedKeys (ui c') = subscribedKeys (ui c)
  /\ (forall e, forgotten = Throw e -> o = Throw e /\ c' = c)
  /\ (forall v, forgotten = Ok v -> activeDeviceId (ui c') <> Some deviceId).
Proof.
  cbv zeta. unfold forgetDeviceById, bind, Guest.forgetDevice, Guest.call, invoke, bind.
  cbn [step_bind run_step Guest.device_request Guest.payload_or_empty].
  change (Guest.NAMESPACE ++ js "|" ++ js "forget_device")
    with (js "plugin:web-bluetooth|forget_device").
  destruct (answer h TUnknown (js "plugin:web-bluetooth|forget_device") _ b)
    as [[v|e] b1]; cbn [fst step_bind run_step ret modify].
  2: { repeat split; congruence. }
  destruct (deselect_gone deviceId (ui c)) as [Hgone Hkeys].
  unfold zoom, refreshDevices, Guest.getDevices, Guest.call, invoke, bind.
  cbn [step_bind zoom_step run_step ui with_ui].
  destruct (answer h TDevices _ _ b1) as [[r|e] b2];
    cbn [step_bind zoom_step run_step modify ui with_ui log_c].
  - rewrite log_subscribedKeys, log_activeDeviceId, store_devices_subscribedKeys.
    split; [exact Hkeys|]. split; [discriminate|]. intros _ _.
    destruct (store_devices_active r (deselect deviceId (ui c))) as [-> | ->];
      [discriminate | exact Hgone].
  - split; [exact Hkeys|]. split; [discriminate|]. intros _ _. exact Hgone.
Qed.
Lemma forgetDeviceById_deselects_witness :
  let c := with_ui (run_step accepting_host (startNotify on_A) tt).1.2 mounted in
  activeDeviceId (ui (run_step accepting_host (forgetDeviceById (js "A") c) tt).1.2)
  = None
  /\ subscribedKeys
       (ui (run_step accepting_host (forgetDeviceById (js "A") c) tt).1.2)
     = [js "A|180d|2a37"]
  /\ (run_step (rejecting_host JNull) (forgetDeviceById (js "A") c) tt).1.2 = c.
Proof.
  cbv zeta. split; [reflexivity|]. split; [reflexivity|].
  pose proof (forgetDeviceById_deselects (rejecting_host JNull) tt
                (with_ui (run_step accepting_host (startNotify on_A) tt).1.2 mounted)
                (js "A")) as Hrejected.
  cbv zeta in Hrejected.
  destruct (run_step (rejecting_host JNull) _ tt) as [[o2 c2] b2].
  cbn [fst snd].
  destruct Hrejected as (_ & Hsame & _).
  exact (proj2 (Hsame _ eq_refl)).
Defined.

(** ** UTF-8 there and back *)

Lemma land_shifted a y k : y < 2 ^ k -> N.land (N.shiftl a k) y = 0.
Proof.
  intros Hy. apply N.bits_inj. intros n.
  rewrite N.land_spec, N.bits_0.
  destruct (N.lt_ge_cases n k) as [Hn|Hn].
  - rewrite N.shiftl_spec_low by exact Hn. reflexivity.
  - replace (N.testbit y n) with false; [apply andb_false_r|].
    symmetry. destruct (N.eq_dec y 0) as [->|Hy0]; [apply N.bits_0|].
    apply N.bits_above_log2. apply N.lt_le_trans with k; [|exact Hn].
    apply N.log2_lt_pow2; [lia | exact Hy].
Qed.

Lemma lor_shifted a y k : y < 2 ^ k -> N.lor (N.shiftl a k) y = a * 2 ^ k + y.
Proof.
  intros Hy. rewrite <- N.lxor_lor, <- N.add_nocarry_lxor by (apply land_shifted; exact Hy).
  rewrite N.shiftl_mul_pow2. reflexivity.
Qed.

Lemma lead_byte (tag y k : N) :
  y < 2 ^ k -> N.lor (tag * 2 ^ k) y = tag * 2 ^ k + y.
Proof. intros Hy. rewrite <- lor_shifted by exact Hy. rewrite N.shiftl_mul_pow2. reflexivity. Qed.

Lemma low_bits (x k : N) : N.land x (N.ones k) = x mod 2 ^ k.
Proof. apply N.land_ones. Qed.

Lemma continuation_value cp shift :
  Byte.to_N (continuation_byte cp shift) = 128 + (cp / 2 ^ shift) mod 64.
Proof.
  unfold continuation_byte.
  change 0x3F with (N.ones 6). rewrite low_bits, N.shiftr_div_pow2.
  change 0x80 with (2 * 2 ^ 6). rewrite lead_byte by (apply N.mod_lt; discriminate).
  apply to_N_byte_of_N.
  assert ((cp / 2 ^ shift) mod 2 ^ 6 < 2 ^ 6) by (apply N.mod_lt; discriminate).
  change (2 ^ 6) with 64 in *. lia.
Qed.

Lemma lead_value (tag k cp shift : N) :
  cp / 2 ^ shift < 2 ^ k -> tag * 2 ^ k + 2 ^ k <= 256 ->
  Byte.to_N (byte_of_N (N.lor (tag * 2 ^ k) (N.shiftr cp shift)))
  = tag * 2 ^ k + cp / 2 ^ shift.
Proof.
  intros Hy Hfit. rewrite N.shiftr_div_pow2, lead_byte by exact Hy.
  apply to_N_byte_of_N. lia.
Qed.

Lemma utf8_bytes_1 cp : cp < 0x80 -> map Byte.to_N (utf8_of_scalar cp) = [cp].
Proof.
  intros H. unfold utf8_of_scalar.
  destruct (N.ltb_spec cp 0x80); [|lia]. cbn [map].
  rewrite to_N_byte_of_N by lia. reflexivity.
Qed.

Lemma utf8_bytes_2 cp :
  0x80 <= cp -> cp < 0x800 ->
  map Byte.to_N (utf8_of_scalar cp) = [192 + cp / 64; 128 + cp mod 64].
Proof.
  intros Hlo Hhi. unfold utf8_of_scalar.
  destruct (N.ltb_spec cp 0x80); [lia|].
  destruct (N.ltb_spec cp 0x800); [|lia]. cbn [map].
  rewrite continuation_value.
  change 0xC0 with (6 * 2 ^ 5).
  rewrite (lead_value 6 5 cp 6) by (change (2 ^ 6) with 64; change (2 ^ 5) with 32; div_mod_lia).
  change (2 ^ 0) with 1. rewrite N.div_1_r. reflexivity.
Qed.

Lemma utf8_bytes_3 cp :
  0x800 <= cp -> cp < 0x10000 ->
  map Byte.to_N (utf8_of_scalar cp)
  = [224 + cp / 4096; 128 + (cp / 64) mod 64; 128 + cp mod 64].
Proof.
  intros Hlo Hhi. unfold utf8_of_scalar.
  destruct (N.ltb_spec cp 0x80); [lia|].
  destruct (N.ltb_spec cp 0x800); [lia|].
  destruct (N.ltb_spec cp 0x10000); [|lia]. cbn [map].
  rewrite !continuation_value.
  change 0xE0 with (14 * 2 ^ 4).
  rewrite (lead_value 14 4 cp 12)
    by (change (2 ^ 12) with 4096; change (2 ^ 4) with 16; div_mod_lia).
  change (2 ^ 0) with 1. rewrite N.div_1_r. reflexivity.
Qed.

Lemma utf8_bytes_4 cp :
  0x10000 <= cp -> cp < 0x110000 ->
  map Byte.to_N (utf8_of_scalar cp)
  = [240 + cp / 262144; 128 + (cp / 4096) mod 64; 128 + (cp / 64) mod 64;
     128 + cp mod 64].
Proof.
  intros Hlo Hhi. unfold utf8_of_scalar.
  destruct (N.ltb_spec cp 0x80); [lia|].
  destruct (N.ltb_spec cp 0x800); [lia|].
  destruct (N.ltb_spec cp 0x10000); [lia|]. cbn [map].
  rewrite !continuation_value.
  change 0xF0 with (30 * 2 ^ 3).
  rewrite (lead_value 30 3 cp 18)
    by (change (2 ^ 18) with 262144; change (2 ^ 3) with 8; div_mod_lia).
  change (2 ^ 0) with 1. rewrite N.div_1_r. reflexivity.
Qed.

Lemma decode_emit b rest :
  b <= 0x7F -> utf8_decode (b :: rest) None = b :: utf8_decode rest None.
Proof.
  intros H. cbn [utf8_decode]. unfold utf8_start.
  destruct (N.leb_spec b 0x7F); [reflexivity|lia].
Qed.

Lemma decode_lead b rest cp n lo hi :
  utf8_start b = Lead cp n lo hi ->
  utf8_decode (b :: rest) None = utf8_decode rest (Some (cp, n, lo, hi)).
Proof. intros H. cbn [utf8_decode]. rewrite H. reflexivity. Qed.

Lemma decode_next y rest cp n lo hi :
  y < 64 -> lo <= 128 + y -> 128 + y <= hi ->
  utf8_decode (128 + y :: rest) (Some (cp, n, lo, hi))
  = if n =? 1 then cp * 64 + y :: utf8_decode rest None
    else utf8_decode rest (Some (cp * 64 + y, n - 1, 0x80, 0xBF)).
Proof.
  intros Hy Hlo Hhi. cbn [utf8_decode].
  destruct (N.leb_spec lo (128 + y)); [|lia].
  destruct (N.leb_spec (128 + y) hi); [|lia]. cbn [andb].
  change 0x3F with (N.ones 6). rewrite low_bits.
  rewrite lor_shifted by (apply N.mod_lt; discriminate).
  change (2 ^ 6) with 64.
  replace ((128 + y) mod 64) with y by div_mod_lia. reflexivity.
Qed.

Lemma utf8_start_2 h : 2 <= h -> h < 32 -> utf8_start (192 + h) = Lead h 1 0x80 0xBF.
Proof.
  intros Hlo Hhi. unfold utf8_start.
  destruct (N.leb_spec (192 + h) 0x7F); [lia|].
  destruct (N.leb_spec 0xC2 (192 + h)); [|lia].
  destruct (N.leb_spec (192 + h) 0xDF); [|lia]. cbn [andb].
  change 0x1F with (N.ones 5). rewrite low_bits. change (2 ^ 5) with 32.
  replace ((192 + h) mod 32) with h by div_mod_lia. reflexivity.
Qed.

Lemma utf8_start_3 h :
  h < 16 ->
  utf8_start (224 + h)
  = Lead h 2 (if h =? 0 then 0xA0 else 0x80) (if h =? 13 then 0x9F else 0xBF).
Proof.
  intros Hhi. unfold utf8_start.
  destruct (N.leb_spec (224 + h) 0x7F); [lia|].
  destruct (N.leb_spec 0xC2 (224 + h)); [|lia].
  destruct (N.leb_spec (224 + h) 0xDF); [lia|]. cbn [andb].
  destruct (N.leb_spec 0xE0 (224 + h)); [|lia].
  destruct (N.leb_spec (224 + h) 0xEF); [|lia]. cbn [andb].
  change 0xF with (N.ones 4). rewrite low_bits. change (2 ^ 4) with 16.
  replace ((224 + h) mod 16) with h by div_mod_lia.
  f_equal.
  - destruct (N.eqb_spec (224 + h) 0xE0), (N.eqb_spec h 0); try reflexivity; lia.
  - destruct (N.eqb_spec (224 + h) 0xED), (N.eqb_spec h 13); try reflexivity; lia.
Qed.

Lemma utf8_start_4 h :
  h <= 4 ->
  utf8_start (240 + h)
  = Lead h 3 (if h =? 0 then 0x90 else 0x80) (if h =? 4 then 0x8F else 0xBF).
Proof.
  intros Hhi. unfold utf8_start.
  destruct (N.leb_spec (240 + h) 0x7F); [lia|].
  destruct (N.leb_spec 0xC2 (240 + h)); [|lia].
  destruct (N.leb_spec (240 + h) 0xDF); [lia|]. cbn [andb].
  destruct (N.leb_spec 0xE0 (240 + h)); [|lia].
  destruct (N.leb_spec (240 + h) 0xEF); [lia|]. cbn [andb].
  destruct (N.leb_spec 0xF0 (240 + h)); [|lia].
  destruct (N.leb_spec (240 + h) 0xF4); [|lia]. cbn [andb].
  change 0x7 with (N.ones 3). rewrite low_bits. change (2 ^ 3) with 8.
  replace ((240 + h) mod 8) with h by div_mod_lia.
  f_equal.
  - destruct (N.eqb_spec (240 + h) 0xF0), (N.eqb_spec h 0); try reflexivity; lia.
  - destruct (N.eqb_spec (240 + h) 0xF4), (N.eqb_spec h 4); try reflexivity; lia.
Qed.

(** A scalar value is decoded from its own UTF-8 bytes. *)
Lemma utf8_decode_scalar cp (rest : list N) :
  cp < 0x110000 -> (cp < 0xD800 \/ 0xDFFF < cp) ->
  utf8_decode (map Byte.to_N (utf8_of_scalar cp) ++ rest) None
  = cp :: utf8_decode rest None.
Proof.
  intros Hmax Hscalar.
  destruct (N.lt_ge_cases cp 0x80) as [H1|H1];
    [|destruct (N.lt_ge_cases cp 0x800) as [H2|H2];
      [|destruct (N.lt_ge_cases cp 0x10000) as [H3|H3]]].
  - rewrite utf8_bytes_1 by assumption. cbn [app]. apply decode_emit. lia.
  - rewrite utf8_bytes_2 by assumption. cbn [app].
    rewrite (decode_lead _ _ _ _ _ _ (utf8_start_2 (cp / 64) ltac:(div_mod_lia) ltac:(div_mod_lia))).
    rewrite decode_next by div_mod_lia. cbn [N.eqb Pos.eqb].
    f_equal. div_mod_lia.
  - rewrite utf8_bytes_3 by assumption. cbn [app].
    rewrite (decode_lead _ _ _ _ _ _ (utf8_start_3 (cp / 4096) ltac:(div_mod_lia))).
    rewrite decode_next;
      [| div_mod_lia
       | destruct (N.eqb_spec (cp / 4096) 0); div_mod_lia
       | destruct (N.eqb_spec (cp / 4096) 13); div_mod_lia].
    cbn [N.eqb Pos.eqb N.sub Pos.sub_mask Pos.pred_double].
    rewrite decode_next by div_mod_lia. cbn [N.eqb Pos.eqb].
    f_equal. div_mod_lia.
  - rewrite utf8_bytes_4 by assumption. cbn [app].
    rewrite (decode_lead _ _ _ _ _ _ (utf8_start_4 (cp / 262144) ltac:(div_mod_lia))).
    rewrite decode_next;
      [| div_mod_lia
       | destruct (N.eqb_spec (cp / 262144) 0); div_mod_lia
       | destruct (N.eqb_spec (cp / 262144) 4); div_mod_lia].
    change (3 =? 1) with false. change (3 - 1) with 2. cbv iota.
    rewrite decode_next by div_mod_lia.
    change (2 =? 1) with false. change (2 - 1) with 1. cbv iota.
    rewrite decode_next by div_mod_lia. change (1 =? 1) with true. cbv iota.
    f_equal. div_mod_lia.
Qed.

Lemma utf8_decode_scalars (cps : list N) :
  Forall is_scalar cps ->
  utf8_decode (map Byte.to_N (concat (map utf8_of_scalar cps))) None = cps.
Proof.
  induction 1 as [|cp cps [Hmax Hscalar] _ IH]; [reflexivity|].
  cbn [map concat]. rewrite map_app, utf8_decode_scalar by assumption.
  rewrite IH. reflexivity.
Qed.

Lemma surrogate_pair_value c d :
  is_lead_surrogate c = true -> is_trail_surrogate d = true ->
  let cp := 0x10000 + N.shiftl (c - 0xD800) 10 + (d - 0xDC00) in
  is_scalar cp /\ utf16_of_scalar cp = [c; d].
Proof.
  unfold is_lead_surrogate, is_trail_surrogate. intros Hc Hd.
  apply andb_true_iff in Hc as [Hc1 Hc2]. apply andb_true_iff in Hd as [Hd1 Hd2].
  apply N.leb_le in Hc1, Hc2, Hd1, Hd2. cbv zeta.
  rewrite N.shiftl_mul_pow2. change (2 ^ 10) with 1024.
  split; [split; lia|].
  unfold utf16_of_scalar.
  destruct (N.ltb_spec (0x10000 + (c - 0xD800) * 1024 + (d - 0xDC00)) 0x10000); [lia|].
  rewrite N.shiftr_div_pow2. change 0x3FF with (N.ones 10). rewrite N.land_ones.
  change (2 ^ 10) with 1024.
  f_equal; [|f_equal]; div_mod_lia.
Qed.

Lemma well_formed_scalars (n : nat) : forall t : jsstring,
  (length t <= n)%nat -> well_formed t = true ->
  Forall is_scalar (scalar_values t)
  /\ concat (map utf16_of_scalar (scalar_values t)) = t
  /\ (forall rest, scalar_values t = 0xFEFF :: rest -> exists t', t = 0xFEFF :: t').
Proof.
  induction n as [|n IH]; intros t Hlen Hwf.
  - destruct t; [|cbn in Hlen; lia]. cbn. split; [apply List.Forall_nil|].
    split; [reflexivity | discriminate].
  - destruct t as [|c rest]; [cbn; split; [apply List.Forall_nil|];
                               split; [reflexivity | discriminate]|].
    cbn [well_formed scalar_values] in *.
    destruct (is_lead_surrogate c) eqn:Hlead.
    + destruct rest as [|d rest']; [discriminate Hwf|].
      apply andb_true_iff in Hwf as [Htrail Hwf]. rewrite Htrail.
      destruct (IH rest' ltac:(cbn in Hlen; lia) Hwf) as (Hs & Hback & _).
      destruct (surrogate_pair_value c d Hlead Htrail) as [Hcp Hunits].
      cbv zeta in Hcp, Hunits.
      split; [apply List.Forall_cons; assumption|]. split.
      * cbn [map concat]. rewrite Hunits, Hback. reflexivity.
      * intros rest0 [= E _]. exfalso. destruct Hcp as [_ Hcp].
        unfold is_lead_surrogate, is_trail_surrogate in Hlead, Htrail.
        apply andb_true_iff in Hlead as [Hc1 Hc2].
        apply andb_true_iff in Htrail as [Hd1 Hd2].
        apply N.leb_le in Hc1, Hc2, Hd1, Hd2.
        rewrite N.shiftl_mul_pow2 in E. change (2 ^ 10) with 1024 in E. lia.
    + apply andb_true_iff in Hwf as [Hwf Hrest].
      apply andb_true_iff in Hwf as [Htrail Hbound].
      apply negb_true_iff in Htrail. rewrite Htrail.
      apply N.ltb_lt in Hbound.
      destruct (IH rest ltac:(cbn in Hlen; lia) Hrest) as (Hs & Hback & _).
      split; [|split].
      * apply List.Forall_cons; [|exact Hs].
        unfold is_lead_surrogate, is_trail_surrogate in Hlead, Htrail.
        apply andb_false_iff in Hlead, Htrail.
        rewrite !N.leb_gt in Hlead, Htrail. split; lia.
      * cbn [map concat]. rewrite Hback. unfold utf16_of_scalar.
        destruct (N.ltb_spec c 0x10000); [reflexivity|lia].
      * intros rest0 [= -> _]. eexists. reflexivity.
Qed.

Lemma strip_bom_other (cps : list N) :
  (forall rest, cps <> 0xFEFF :: rest) -> strip_bom cps = cps.
Proof.
  intros H. destruct cps as [|cp rest]; [reflexivity|].
  destruct (N.eq_dec cp 0xFEFF) as [->|Hne]; [exfalso; exact (H rest eq_refl)|].
  unfold strip_bom. destruct cp as [|p]; [reflexivity|].
  repeat (destruct p as [p|p|]; try reflexivity).
  contradiction.
Qed.

(** X18.  Text written is the text read.  For every text-mode input whose
    trimmed form is non-empty, well formed (no unpaired surrogate) and of
    no more UTF-8 bytes than the engine accepts as arguments of one call,
    the payload produced is decoded by [decodeValue], without an error, to
    a [utf8] field that is exactly the trimmed input. *)
Theorem text_written_is_text_read (max_arguments : N) (st st' : UiState) :
  writeMode st = text ->
  trim (writeValue st) <> [] ->
  well_formed (trim (writeValue st)) = true ->
  N.of_nat (length (TextEncoder_encode (trim (writeValue st)))) <= max_arguments ->
  exists payload,
    encodeWritePayload max_arguments st = Ok payload
    /\ utf8 (decodeValue payload st').1 = trim (writeValue st)
    /\ (decodeValue payload st').2 = st'.
Proof.
  intros Hmode Hdata Hwf Hfits.
  exists (b64_encode (map Byte.to_N (TextEncoder_encode (trim (writeValue st))))).
  split.
  - unfold encodeWritePayload. rewrite truthy_nonempty by assumption.
    rewrite Hmode. apply encodeBinary_within. exact Hfits.
  - unfold decodeValue. rewrite decodeBytes_encode. cbn [fst snd].
    split; [|reflexivity].
    unfold TextDecoder_decode, TextEncoder_encode. cbn [utf8].
    destruct (well_formed_scalars _ (trim (writeValue st)) (le_n _) Hwf)
      as (Hscalars & Hback & Hbom).
    rewrite utf8_decode_scalars by assumption.
    rewrite strip_bom_other; [exact Hback|].
    intros rest E. destruct (Hbom rest E) as [t' Ht'].
    pose proof (trim_head (writeValue st) 0xFEFF t' Ht') as Hspace.
    discriminate Hspace.
Qed.

Lemma text_written_is_text_read_witness :
  exists payload,
    encodeWritePayload sample_max_arguments
      (set_write [32; 0x20AC; 0xD83D; 0xDE00; 10] text initial)
    = Ok payload
    /\ utf8 (decodeValue payload initial).1 = [0x20AC; 0xD83D; 0xDE00]
    /\ (decodeValue payload initial).2 = initial.
Proof.
  apply (text_written_is_text_read sample_max_arguments
           (set_write [32; 0x20AC; 0xD83D; 0xDE00; 10] text initial) initial).
  - reflexivity.
  - vm_compute. discriminate.
  - reflexivity.
  - vm_compute. discriminate.
Defined.

(** ** Reading and notifications *)

(** X19.  A value that cannot be decoded does not fail the read.  With a
    device selected and both UUIDs set, [readCharacteristic] invokes
    [read_characteristic_value] once and passes a rejection on.  Whatever
    value is answered, the command succeeds and [lastRead] holds that value
    as [base64]; when the value decodes, [hex] is the rendering of its
    bytes and one entry is logged; when it does not, [utf8] is [(decode
    error)], [hex] is empty and two entries are logged, the decoding error
    first.  Each entry logged is one [++] of the counter, which is one more
    below 2^53. *)
Theorem readCharacteristic_shows_value (c : Component) (d : jsstring) :
  selected (ui c) = Some d ->
  truthy (workingServiceUuid (ui c)) = true ->
  truthy (workingCharacteristicUuid (ui c)) = true ->
  exists resume,
    readCharacteristic c
    = Awaiting TValue (js "plugin:web-bluetooth|read_characteristic_value")
        (JObj [(js "request",
                JObj [(js "deviceId", JStr d);
                      (js "serviceUuid", JStr (workingServiceUuid (ui c)));
                      (js "characteristicUuid",
                       JStr (workingCharacteristicUuid (ui c)))])])
        c resume
    /\ (forall e c', resume (Throw e) c' = Finished (Throw e) c')
    /\ forall v c',
         resume (Ok {| value := v |}) c'
         = Finished (Ok tt) (store_read {| value := v |} c')
         /\ (read_base64 <$> lastRead (store_read {| value := v |} c')) = Some v
         /\ (forall bs,
                decodeBytes v = Ok bs ->
                (read_hex <$> lastRead (store_read {| value := v |} c'))
                = Some (join (js " ") (map byte_hex bs))
                /\ logCounter (ui (store_read {| value := v |} c'))
                   = increment (logCounter (ui c'))
                /\ ((logCounter (ui c') < 2 ^ 53)%Z ->
                    logCounter (ui (store_read {| value := v |} c'))
                    = (logCounter (ui c') + 1)%Z))
         /\ (forall e,
                decodeBytes v = Throw e ->
                lastRead (store_read {| value := v |} c')
                = Some {| read_base64 := v; read_utf8 := js "(decode error)";
                          read_hex := [] |}
                /\ logCounter (ui (store_read {| value := v |} c'))
                   = increment (increment (logCounter (ui c')))
                /\ ((logCounter (ui c') < 2 ^ 53 - 1)%Z ->
                    logCounter (ui (store_read {| value := v |} c'))
                    = (logCounter (ui c') + 2)%Z)
                /\ (label <$> last (take 2 (logEntries (ui (store_read {| value := v |} c')))))
                   = Some (js "Base64 decode failed")).
Proof.
  intros Hsel Hs Hc.
  unfold readCharacteristic, bind. rewrite zoom_ensureDevice, Hsel.
  cbn [step_bind get]. rewrite Hs, Hc. cbn [negb orb].
  eexists. split; [reflexivity|]. split; [reflexivity|].
  intros v c'. split; [reflexivity|].
  unfold store_read, decodeValue. cbn [value].
  destruct (decodeBytes v) as [bs|e]; cbn [lastRead set_lastRead log_c with_ui ui].
  - split; [reflexivity|]. split; [|discriminate].
    intros bs' [= <-]. split; [reflexivity|]. split; [reflexivity|].
    intros Hbelow. cbn [logCounter log set_log]. apply increment_below, Hbelow.
  - split; [reflexivity|]. split; [discriminate|].
    intros e' _. split; [reflexivity|]. split; [reflexivity|].
    split; [|reflexivity].
    intros Hbelow. cbn [logCounter log set_log].
    rewrite (increment_below (logCounter (ui c'))) by lia.
    rewrite increment_below by lia. lia.
Qed.

Lemma readCharacteristic_shows_value_witness :
  let c := with_ui on_A mounted in
  let c' := run_step (host_with_value (js "%")) (readCharacteristic c) tt in
  c'.1.1 = Ok tt
  /\ lastRead c'.1.2
     = Some {| read_base64 := js "%"; read_utf8 := js "(decode error)";
               read_hex := [] |}.
Proof.
  cbv zeta.
  destruct (readCharacteristic_shows_value (with_ui on_A mounted) (js "A")
              eq_refl eq_refl eq_refl) as (resume & Heq & _ & Hvalue).
  rewrite Heq. cbn [run_step answer host_with_value].
  destruct (Hvalue (js "%") (with_ui on_A mounted)) as (Hres & _ & _ & Hbad).
  cbn [response] in Hres |- *. rewrite Hres. cbn [run_step fst snd].
  split; [reflexivity|].
  exact (proj1 (Hbad _ eq_refl)).
Defined.

